(** * opencode-voice-plugin: speech delivery and session capture

    A shallow embedding of the plugin's revisions:

    - [Index]   is [src/index.ts]: lock gate, delivery chain with console
      diagnostics, idle announcement;
    - [Capture] is the revision with response capture: the same lock gate
      and delivery chain without diagnostics, the SQLite response store,
      text extraction and the de-duplicating idle handler.

    - [Ungated] is the oldest revision, whose [speak] has no lock gate.

    JavaScript strings are sequences of UTF-16 code units, [async] functions
    are computations in a state-and-exception monad, and every call that
    leaves the process (fetch, the Bun shell, the host's session client) is
    answered by an oracle that sees the whole history of effects so far.
    Each effect is appended to a trace together with the answer it got. *)

From Stdlib Require Import List NArith ZArith Bool Lia String Ascii PrimFloat.
Import ListNotations.

Set Implicit Arguments.

(* ================================================================== *)
(** ** JavaScript strings *)

Module JsString.

(** A string value: its UTF-16 code units, in order. *)
Definition t := list N.

Definition eqb (a b : t) : bool :=
  if list_eq_dec N.eq_dec a b then true else false.

(** Source text is UTF-8; a literal denotes the code units of the
    characters it spells (a supplementary character is a surrogate
    pair, an ill-formed tail is U+FFFD). *)
Fixpoint decode (bs : list N) : t :=
  match bs with
  | [] => []
  | b0 :: tl =>
    if (b0 <? 128)%N then b0 :: decode tl
    else if (b0 <? 224)%N then
      match tl with
      | b1 :: tl1 => ((b0 mod 32) * 64 + b1 mod 64)%N :: decode tl1
      | _ => [65533%N]
      end
    else if (b0 <? 240)%N then
      match tl with
      | b1 :: b2 :: tl2 =>
        ((b0 mod 16) * 4096 + (b1 mod 64) * 64 + b2 mod 64)%N :: decode tl2
      | _ => [65533%N]
      end
    else
      match tl with
      | b1 :: b2 :: b3 :: tl3 =>
        let cp := ((b0 mod 8) * 262144 + (b1 mod 64) * 4096
                   + (b2 mod 64) * 64 + b3 mod 64)%N in
        let c := (cp - 65536)%N in
        (55296 + c / 1024)%N :: (56320 + c mod 1024)%N :: decode tl3
      | _ => [65533%N]
      end
  end.

Definition lit (s : string) : t :=
  decode (map N_of_ascii (list_ascii_of_string s)).

(** ECMAScript WhiteSpace and LineTerminator code points, the set that
    [String.prototype.trim] strips. *)
Definition isWhiteSpace (c : N) : bool :=
  ((c =? 9) || (c =? 10) || (c =? 11) || (c =? 12) || (c =? 13)
   || (c =? 32) || (c =? 160) || (c =? 5760)
   || ((8192 <=? c) && (c <=? 8202))
   || (c =? 8232) || (c =? 8233) || (c =? 8239) || (c =? 8287)
   || (c =? 12288) || (c =? 65279))%N.

Fixpoint trimStart (s : t) : t :=
  match s with
  | c :: s' => if isWhiteSpace c then trimStart s' else s
  | [] => []
  end.

Definition trimEnd (s : t) : t := rev (trimStart (rev s)).

(** [s.trim()] *)
Definition trim (s : t) : t := trimEnd (trimStart s).

(** [s.replace(/'/g, "''")] *)
Definition apostrophe : N := 39.
Definition doubleApostrophes (s : t) : t :=
  flat_map (fun c => if (c =? apostrophe)%N then [apostrophe; apostrophe] else [c]) s.

(** [xs.join(sep)]; an [undefined] element contributes the empty string. *)
Fixpoint join (sep : t) (xs : list (option t)) : t :=
  match xs with
  | [] => []
  | [x] => match x with Some s => s | None => [] end
  | x :: rest => match x with Some s => s | None => [] end ++ sep ++ join sep rest
  end.

(** ["\n"] *)
Definition LF : t := [10%N].

(** A plain double quote, U+0022. *)
Definition quote : t := [34%N].

(** A string is truthy when it is not empty. *)
Definition truthy (s : t) : bool :=
  match s with [] => false | _ => true end.

End JsString.

Definition jsstring : Type := JsString.t.
Notation "'js' s" := (JsString.lit s%string) (at level 1, s at level 0, only parsing).

(* ================================================================== *)
(** ** JavaScript values, as far as [response.json()] can produce them *)

#[local] Unset Elimination Schemes.
Inductive JsValue : Type :=
| JUndefined
| JNull
| JBool (b : bool)
| JNumber (x : float)
| JString (s : jsstring)
| JArray (xs : list JsValue)
| JObject (fields : list (jsstring * JsValue)).
#[local] Set Elimination Schemes.

(** Values thrown by the runtime and by the collaborators. *)
Inductive Exn : Type :=
| TypeError
| SyntaxError            (* response.json() on a body that is not JSON *)
| NetworkError           (* fetch rejected *)
| TimeoutError           (* AbortSignal.timeout fired *)
| ShellError (exitCode : Z)  (* the Bun shell throws on a non-zero exit *)
| HostError.             (* the session client rejected *)

Module Js.

(** ToBoolean *)
Definition truthy (v : JsValue) : bool :=
  match v with
  | JUndefined | JNull => false
  | JBool b => b
  | JNumber x => negb (PrimFloat.eqb x PrimFloat.zero || negb (PrimFloat.eqb x x))
  | JString s => JsString.truthy s
  | JArray _ | JObject _ => true
  end.

(** Own property of a parsed JSON object: a repeated key keeps its last
    value. *)
Fixpoint lookup (k : jsstring) (fields : list (jsstring * JsValue)) : option JsValue :=
  match fields with
  | [] => None
  | (k', v) :: rest =>
    match lookup k rest with
    | Some v' => Some v'
    | None => if JsString.eqb k k' then Some v else None
    end
  end.

(** [v.k] for a property name [k] that no prototype defines and that is
    neither an index nor ["length"]: reading it from [null] or
    [undefined] throws, an object yields its own property or
    [undefined], every other value yields [undefined]. *)
Definition get (v : JsValue) (k : jsstring) : Exn + JsValue :=
  match v with
  | JUndefined | JNull => inl TypeError
  | JObject fields =>
    match lookup k fields with
    | Some x => inr x
    | None => inr JUndefined
    end
  | _ => inr JUndefined
  end.

End Js.

(* ================================================================== *)
(** ** Collaborators: fetch, the Bun shell, the host's session client *)

Inductive Method : Type := GET | POST.

Record Request : Type := {
  req_url : jsstring;
  req_method : Method;
  req_headers : list (jsstring * jsstring);
  req_body : option JsValue;   (* the argument of JSON.stringify *)
  req_timeout : option Z       (* AbortSignal.timeout, milliseconds *)
}.

Record Response : Type := {
  resp_status : Z;
  resp_json : Exn + JsValue    (* what [await response.json()] gives *)
}.

(** [response.ok] *)
Definition ok (r : Response) : bool :=
  ((200 <=? resp_status r) && (resp_status r <=? 299))%Z.

(** A command line given to the Bun shell: every interpolated value is one
    argument, passed literally. *)
Record Command : Type := {
  argv : list jsstring;
  stderr_null : bool           (* 2>/dev/null *)
}.

Record Part : Type := { part_type : jsstring; part_text : option jsstring }.
Record MessageInfo : Type := { id : jsstring; role : jsstring }.
Record Message : Type := { info : MessageInfo; parts : list Part }.
Record MessagesResponse : Type := { data : option (list Message) }.

Inductive Level : Type := Log | Warn | Error.

(** What the console calls say. *)
Inductive Diagnostic : Type :=
| LockCheckFailed (error : Exn)   (* "Could not check speech lock, allowing speech:" *)
| SpeechLocked                    (* "Speech locked (user recording), skipping TTS" *)
| ApiReturned (status : Z)        (* "TTS API returned <status>, using fallback script" *)
| ApiUnavailable (error : Exn)    (* "TTS API unavailable, using fallback script:" *)
| FallbackFailed (error : Exn).   (* "TTS fallback script failed:" *)

(** One entry of the trace: what was done and what came back. *)
Inductive Effect : Type :=
| Fetched (req : Request) (out : Exn + Response)
| Ran (cmd : Command) (out : Exn + unit)
| Listed (sessionID : jsstring) (out : Exn + MessagesResponse)
| Assigned (messageId : jsstring)       (* lastProcessedMessageId = ... *)
| Printed (level : Level) (what : Diagnostic).

(** The world outside the process. An answer may depend on everything that
    happened before the call. *)
Record World : Type := {
  fetch_reply : list Effect -> Request -> Exn + Response;
  shell_reply : list Effect -> Command -> Exn + unit
}.

(** The host's session client, [client.session.messages]. *)
Record Client : Type := {
  messages_reply : list Effect -> jsstring -> Exn + MessagesResponse
}.

(** The plugin instance's state: the trace so far (oldest first) and the
    closure variable [lastProcessedMessageId]. *)
Record State : Type := {
  trace : list Effect;
  lastProcessedMessageId : option jsstring
}.

Definition initial : State := {| trace := []; lastProcessedMessageId := None |}.

(* ================================================================== *)
(** ** Computations *)

Definition M (A : Type) : Type := World -> State -> (Exn + A) * State.

Definition ret {A} (a : A) : M A := fun _ s => (inr a, s).

Definition throw {A} (e : Exn) : M A := fun _ s => (inl e, s).

Definition bind {A B} (m : M A) (k : A -> M B) : M B :=
  fun w s =>
    match m w s with
    | (inr a, s') => k a w s'
    | (inl e, s') => (inl e, s')
    end.

(** [try { body } catch (error) { handler }]: the state changes made by
    the body before it threw are kept. *)
Definition try_catch {A} (body : M A) (handler : Exn -> M A) : M A :=
  fun w s =>
    match body w s with
    | (inr a, s') => (inr a, s')
    | (inl e, s') => handler e w s'
    end.

Definition settle {A} (r : Exn + A) : M A :=
  match r with inl e => throw e | inr a => ret a end.

Definition record (e : Effect) (s : State) : State :=
  {| trace := trace s ++ [e]; lastProcessedMessageId := lastProcessedMessageId s |}.

Declare Scope js_scope.
Delimit Scope js_scope with js_m.
Notation "x <- m ;; k" := (bind m (fun x => k))
  (at level 100, m at next level, right associativity) : js_scope.
Notation "m ;; k" := (bind m (fun _ => k))
  (at level 100, right associativity) : js_scope.
Open Scope js_scope.

(** [await fetch(url, init)] *)
Definition fetch (req : Request) : M Response :=
  fun w s =>
    let out := fetch_reply w (trace s) req in
    settle out w (record (Fetched req out) s).

(** [await $`...`] *)
Definition shell (cmd : Command) : M unit :=
  fun w s =>
    let out := shell_reply w (trace s) cmd in
    settle out w (record (Ran cmd out) s).

(** [await client.session.messages({ path: { id } })] *)
Definition session_messages (client : Client) (sessionID : jsstring) : M MessagesResponse :=
  fun w s =>
    let out := messages_reply client (trace s) sessionID in
    settle out w (record (Listed sessionID out) s).

(** [console.log], [console.warn], [console.error] *)
Definition console (level : Level) (what : Diagnostic) : M unit :=
  fun _ s => (inr tt, record (Printed level what) s).

Definition read_lastProcessedMessageId : M (option jsstring) :=
  fun _ s => (inr (lastProcessedMessageId s), s).

Definition assign_lastProcessedMessageId (messageId : jsstring) : M unit :=
  fun _ s => (inr tt, {| trace := trace s ++ [Assigned messageId];
                         lastProcessedMessageId := Some messageId |}).

(** [process.env] *)
Definition Env : Type := jsstring -> option jsstring.

(** [a ?? b] on an optional string *)
Definition nullish (a : option jsstring) (b : jsstring) : jsstring :=
  match a with Some x => x | None => b end.

(** [v === "true"] on an optional string *)
Definition is_true_string (v : option jsstring) : bool :=
  match v with Some x => JsString.eqb x (js "true") | None => false end.


(* ================================================================== *)
(** ** [src/index.ts] *)

Module Index.

Record TTSConfig : Type := {
  apiUrl : jsstring;
  canSpeakUrl : jsstring;
  fallbackScript : jsstring;
  announceOnIdle : bool;
  idleMessage : jsstring
}.

Definition defaultConfig : TTSConfig := {|
  apiUrl := js "http://localhost:5555/api/speech/speak";
  canSpeakUrl := js "http://localhost:5555/api/speech/can-speak";
  fallbackScript := js "~/voice-assistant/voice-output/tts-api.sh";
  announceOnIdle := false;
  idleMessage := js "Úkol dokončen."
|}.

Definition loadConfig (env : Env) : TTSConfig := {|
  apiUrl := nullish (env (js "OPENCODE_TTS_API_URL")) (apiUrl defaultConfig);
  canSpeakUrl := nullish (env (js "OPENCODE_TTS_CAN_SPEAK_URL")) (canSpeakUrl defaultConfig);
  fallbackScript := nullish (env (js "OPENCODE_TTS_FALLBACK_SCRIPT")) (fallbackScript defaultConfig);
  announceOnIdle := is_true_string (env (js "OPENCODE_TTS_ANNOUNCE_IDLE"));
  idleMessage := nullish (env (js "OPENCODE_TTS_IDLE_MESSAGE")) (idleMessage defaultConfig)
|}.

(** The lock-check query: GET with a one second timeout. *)
Definition canSpeakRequest (config : TTSConfig) : Request := {|
  req_url := canSpeakUrl config;
  req_method := GET;
  req_headers := [];
  req_body := None;
  req_timeout := Some 1000%Z
|}.

(** The value is whatever [data.canSpeak] is; the declared type
    [{ canSpeak: boolean }] is an unchecked assertion. *)
Definition canSpeak (config : TTSConfig) : M JsValue :=
  try_catch
    (response <- fetch (canSpeakRequest config) ;;
     if ok response then
       data <- settle (resp_json response) ;;
       settle (Js.get data (js "canSpeak"))
     else
       ret (JBool true))
    (fun error =>
       console Warn (LockCheckFailed error) ;;
       ret (JBool true)).

(** The primary channel's request: POST of [JSON.stringify({ text })]. *)
Definition speakRequest (config : TTSConfig) (text : jsstring) : Request := {|
  req_url := apiUrl config;
  req_method := POST;
  req_headers := [(js "Content-Type", js "application/json")];
  req_body := Some (JObject [(js "text", JString text)]);
  req_timeout := None
|}.

(** The fallback command line: [$`${config.fallbackScript} ${text}`]. *)
Definition fallbackCommand (config : TTSConfig) (text : jsstring) : Command :=
  {| argv := [fallbackScript config; text]; stderr_null := false |}.

(** The first [try] either returns [true] from [speak] or falls through
    to the fallback; [delivered] says which. *)
Definition speak (config : TTSConfig) (text : jsstring) : M bool :=
  allowed <- canSpeak config ;;
  if negb (Js.truthy allowed) then
    console Log SpeechLocked ;;
    ret true
  else
    delivered <-
      try_catch
        (response <- fetch (speakRequest config text) ;;
         if ok response then ret true
         else
           console Warn (ApiReturned (resp_status response)) ;;
           ret false)
        (fun error =>
           console Warn (ApiUnavailable error) ;;
           ret false) ;;
    if (delivered : bool) then ret true
    else
      try_catch
        (shell (fallbackCommand config text) ;;
         ret true)
        (fun error =>
           console Error (FallbackFailed error) ;;
           ret false).

Record Event : Type := { type : jsstring }.

Definition event (config : TTSConfig) (ev : Event) : M unit :=
  if JsString.eqb (type ev) (js "session.idle") && announceOnIdle config then
    speak config (idleMessage config) ;;
    ret tt
  else
    ret tt.

(** The [speak] tool's arguments and its [execute]. The confirmation opens
    with a low double quotation mark (U+201E) and closes with a plain
    double quote. *)
Record Args : Type := { text : jsstring }.

Definition execute (config : TTSConfig) (args : Args) : M jsstring :=
  success <- speak config (text args) ;;
  if (success : bool) then
    ret (js "„" ++ text args ++ JsString.quote)
  else
    ret (js "[TTS error] „" ++ text args ++ JsString.quote).

End Index.

(* ================================================================== *)
(** ** The revision with response capture *)

Module Capture.

Record TTSConfig : Type := {
  apiUrl : jsstring;
  canSpeakUrl : jsstring;
  fallbackScript : jsstring;
  announceOnIdle : bool;
  idleMessage : jsstring;
  dbPath : jsstring;
  storeAiResponses : bool
}.

Definition defaultConfig : TTSConfig := {|
  apiUrl := js "http://localhost:5555/api/speech/speak";
  canSpeakUrl := js "http://localhost:5555/api/speech/can-speak";
  fallbackScript := js "~/voice-assistant/voice-output/tts-api.sh";
  announceOnIdle := false;
  idleMessage := js "Úkol dokončen.";
  dbPath := js "/home/jirka/voice-assistant/voice-assistant.db";
  storeAiResponses := false
|}.

Definition loadConfig (env : Env) : TTSConfig := {|
  apiUrl := nullish (env (js "OPENCODE_TTS_API_URL")) (apiUrl defaultConfig);
  canSpeakUrl := nullish (env (js "OPENCODE_TTS_CAN_SPEAK_URL")) (canSpeakUrl defaultConfig);
  fallbackScript := nullish (env (js "OPENCODE_TTS_FALLBACK_SCRIPT")) (fallbackScript defaultConfig);
  announceOnIdle := is_true_string (env (js "OPENCODE_TTS_ANNOUNCE_IDLE"));
  idleMessage := nullish (env (js "OPENCODE_TTS_IDLE_MESSAGE")) (idleMessage defaultConfig);
  dbPath := nullish (env (js "OPENCODE_DB_PATH")) (dbPath defaultConfig);
  storeAiResponses := is_true_string (env (js "OPENCODE_STORE_AI_RESPONSES"))
|}.

Definition canSpeakRequest (config : TTSConfig) : Request := {|
  req_url := canSpeakUrl config;
  req_method := GET;
  req_headers := [];
  req_body := None;
  req_timeout := Some 1000%Z
|}.

Definition canSpeak (config : TTSConfig) : M JsValue :=
  try_catch
    (response <- fetch (canSpeakRequest config) ;;
     if ok response then
       data <- settle (resp_json response) ;;
       settle (Js.get data (js "canSpeak"))
     else
       ret (JBool true))
    (fun _ => ret (JBool true)).

Definition speakRequest (config : TTSConfig) (text : jsstring) : Request := {|
  req_url := apiUrl config;
  req_method := POST;
  req_headers := [(js "Content-Type", js "application/json")];
  req_body := Some (JObject [(js "text", JString text)]);
  req_timeout := None
|}.

Definition fallbackCommand (config : TTSConfig) (text : jsstring) : Command :=
  {| argv := [fallbackScript config; text]; stderr_null := false |}.

Definition speak (config : TTSConfig) (text : jsstring) : M bool :=
  allowed <- canSpeak config ;;
  if negb (Js.truthy allowed) then ret true
  else
    delivered <-
      try_catch
        (response <- fetch (speakRequest config text) ;;
         if ok response then ret true else ret false)
        (fun _ => ret false) ;;
    if (delivered : bool) then ret true
    else
      try_catch
        (shell (fallbackCommand config text) ;;
         ret true)
        (fun _ => ret false).

(** The SQL text handed to sqlite3 as its one statement argument. *)
Definition insertStatement (escapedContent : jsstring) : jsstring :=
  js "INSERT INTO AiResponses (Content) VALUES ('" ++ escapedContent ++ js "');".

Definition insertCommand (config : TTSConfig) (escapedContent : jsstring) : Command :=
  {| argv := [js "sqlite3"; dbPath config; insertStatement escapedContent];
     stderr_null := true |}.

Definition storeAiResponse (config : TTSConfig) (content : jsstring) : M unit :=
  if negb (storeAiResponses config) || negb (JsString.truthy (JsString.trim content)) then
    ret tt
  else
    try_catch
      (let escapedContent := JsString.doubleApostrophes content in
       shell (insertCommand config escapedContent))
      (fun _ => ret tt).

Definition extractTextFromParts (parts : list Part) : jsstring :=
  JsString.join JsString.LF
    (map (fun part => part_text part)
       (filter (fun part =>
                  JsString.eqb (part_type part) (js "text")
                  && match part_text part with
                     | Some text => JsString.truthy text
                     | None => false
                     end)
          parts)).

Record Properties : Type := { sessionID : jsstring }.
Record Event : Type := { type : jsstring; properties : Properties }.

(** What the host hands to the plugin, besides the shell. *)
Record PluginInput : Type := { client : option Client }.

(** [id !== lastProcessedMessageId] *)
Definition differs (messageId : jsstring) (marker : option jsstring) : bool :=
  match marker with
  | Some last => negb (JsString.eqb messageId last)
  | None => true
  end.

Definition event (config : TTSConfig) (input : PluginInput) (ev : Event) : M unit :=
  (if JsString.eqb (type ev) (js "session.idle") && announceOnIdle config then
     speak config (idleMessage config) ;;
     ret tt
   else
     ret tt) ;;
  if JsString.eqb (type ev) (js "session.idle") && storeAiResponses config then
    match client input with
    | None => ret tt
    | Some client =>
      try_catch
        (let sessionId := sessionID (properties ev) in
         messagesResponse <- session_messages client sessionId ;;
         let messages := match data messagesResponse with Some ms => ms | None => [] end in
         let lastAssistantMessage :=
           find (fun m => JsString.eqb (role (info m)) (js "assistant")) (rev messages) in
         match lastAssistantMessage with
         | Some m =>
           last <- read_lastProcessedMessageId ;;
           if differs (id (info m)) last then
             assign_lastProcessedMessageId (id (info m)) ;;
             let textContent := extractTextFromParts (parts m) in
             if JsString.truthy textContent then storeAiResponse config textContent
             else ret tt
           else ret tt
         | None => ret tt
         end)
        (fun _ => ret tt)
    end
  else
    ret tt.

Record Args : Type := { text : jsstring }.

Definition execute (config : TTSConfig) (args : Args) : M jsstring :=
  success <- speak config (text args) ;;
  if (success : bool) then
    ret (js "„" ++ text args ++ JsString.quote)
  else
    ret (js "[TTS error] „" ++ text args ++ JsString.quote).

End Capture.

(* ================================================================== *)
(** ** The oldest revision: no lock gate *)

Module Ungated.

Record TTSConfig : Type := {
  apiUrl : jsstring;
  fallbackScript : jsstring;
  announceOnIdle : bool;
  idleMessage : jsstring
}.

Definition defaultConfig : TTSConfig := {|
  apiUrl := js "http://localhost:5555/api/speech/speak";
  fallbackScript := js "~/voice-assistant/voice-output/tts-api.sh";
  announceOnIdle := false;
  idleMessage := js "Úkol dokončen."
|}.

Definition loadConfig (env : Env) : TTSConfig := {|
  apiUrl := nullish (env (js "OPENCODE_TTS_API_URL")) (apiUrl defaultConfig);
  fallbackScript := nullish (env (js "OPENCODE_TTS_FALLBACK_SCRIPT")) (fallbackScript defaultConfig);
  announceOnIdle := is_true_string (env (js "OPENCODE_TTS_ANNOUNCE_IDLE"));
  idleMessage := nullish (env (js "OPENCODE_TTS_IDLE_MESSAGE")) (idleMessage defaultConfig)
|}.

Definition speakRequest (config : TTSConfig) (text : jsstring) : Request := {|
  req_url := apiUrl config;
  req_method := POST;
  req_headers := [(js "Content-Type", js "application/json")];
  req_body := Some (JObject [(js "text", JString text)]);
  req_timeout := None
|}.

Definition fallbackCommand (config : TTSConfig) (text : jsstring) : Command :=
  {| argv := [fallbackScript config; text]; stderr_null := false |}.

Definition speak (config : TTSConfig) (text : jsstring) : M bool :=
  delivered <-
    try_catch
      (response <- fetch (speakRequest config text) ;;
       if ok response then ret true
       else
         console Warn (ApiReturned (resp_status response)) ;;
         ret false)
      (fun error =>
         console Warn (ApiUnavailable error) ;;
         ret false) ;;
  if (delivered : bool) then ret true
  else
    try_catch
      (shell (fallbackCommand config text) ;;
       ret true)
      (fun error =>
         console Error (FallbackFailed error) ;;
         ret false).

Record Event : Type := { type : jsstring }.

Definition event (config : TTSConfig) (ev : Event) : M unit :=
  if JsString.eqb (type ev) (js "session.idle") && announceOnIdle config then
    speak config (idleMessage config) ;;
    ret tt
  else
    ret tt.

Record Args : Type := { text : jsstring }.

Definition execute (config : TTSConfig) (args : Args) : M jsstring :=
  success <- speak config (text args) ;;
  if (success : bool) then
    ret (js "Spoken: " ++ JsString.quote ++ text args ++ JsString.quote)
  else
    ret (js "Failed to speak: " ++ JsString.quote ++ text args ++ JsString.quote).

End Ungated.

(* ================================================================== *)
(** ** Reading a trace *)

(** Effects that leave the process. *)
Definition is_call (e : Effect) : bool :=
  match e with
  | Fetched _ _ | Ran _ _ | Listed _ _ => true
  | Assigned _ | Printed _ _ => false
  end.

(** A request to the primary channel: the only POST the plugin makes. *)
Definition to_primary (e : Effect) : bool :=
  match e with
  | Fetched req _ => match req_method req with POST => true | GET => false end
  | _ => false
  end.

(** A run of the fallback executable: a command whose stderr is left
    attached. *)
Definition to_fallback (e : Effect) : bool :=
  match e with
  | Ran cmd _ => negb (stderr_null cmd)
  | _ => false
  end.

(** A write to the response store: the one command run with stderr sent
    to /dev/null. *)
Definition to_store (e : Effect) : bool :=
  match e with
  | Ran cmd _ => stderr_null cmd
  | _ => false
  end.

Definition to_delivery (e : Effect) : bool := to_primary e || to_fallback e.

Definition is_assignment (e : Effect) : bool :=
  match e with Assigned _ => true | _ => false end.

(** The primary channel delivered: a response with a 2xx status. *)
Definition delivered (out : Exn + Response) : bool :=
  match out with
  | inr response => ok response
  | inl _ => false
  end.

(** The lock gate's contract, for either revision's [canSpeak]: started in
    any state of any world it returns a value, makes exactly one call, the
    lock query, keeps the marker, and answers [true] whenever the query
    failed, came back with a status outside 2xx, had a body that could
    not be read as JSON, or had a body ([null]) that has no properties to
    read. *)
Definition fail_open (canSpeak : M JsValue) (query : Request) : Prop :=
  forall (w : World) (s : State),
    exists (v : JsValue) (s' : State) (new : list Effect),
      canSpeak w s = (inr v, s')
      /\ trace s' = trace s ++ new
      /\ lastProcessedMessageId s' = lastProcessedMessageId s
      /\ filter is_call new = [Fetched query (fetch_reply w (trace s) query)]
      /\ (forall e, fetch_reply w (trace s) query = inl e -> v = JBool true)
      /\ (forall response,
            fetch_reply w (trace s) query = inr response ->
            ok response = false -> v = JBool true)
      /\ (forall response e,
            fetch_reply w (trace s) query = inr response ->
            resp_json response = inl e -> v = JBool true)
      /\ (forall response body e,
            fetch_reply w (trace s) query = inr response ->
            resp_json response = inr body ->
            Js.get body (js "canSpeak") = inl e -> v = JBool true).

(** The delivery chain, for either revision's [speak]. Behind an open lock
    gate the primary channel is tried first, with the text in the request
    body; a 2xx answer ends the call with [true] and nothing else is
    called; any other outcome is followed by exactly one run of the
    fallback executable, with the same text as its argument. And in every
    run, open gate or not, the delivery calls found in the trace are none,
    or one delivered request to the primary channel and the answer [true],
    or one failed request to the primary channel followed by one run of
    the fallback executable. *)
Definition delivery_chain_order
    (canSpeak : M JsValue) (speak : jsstring -> M bool)
    (primary : jsstring -> Request) (fallback : jsstring -> Command) : Prop :=
  (forall (text : jsstring) (w : World) (s s1 : State) (allowed : JsValue),
      canSpeak w s = (inr allowed, s1) ->
      Js.truthy allowed = true ->
      let out := fetch_reply w (trace s1) (primary text) in
      exists (b : bool) (s' : State) (new : list Effect),
        speak text w s = (inr b, s')
        /\ trace s' = trace s1 ++ new
        /\ if delivered out
           then b = true /\ filter is_call new = [Fetched (primary text) out]
           else exists res,
                  filter is_call new = [Fetched (primary text) out; Ran (fallback text) res])
  /\ (forall (text : jsstring) (w : World) (s : State),
        exists (b : bool) (s' : State) (new : list Effect),
          speak text w s = (inr b, s')
          /\ trace s' = trace s ++ new
          /\ (filter to_delivery new = []
              \/ (exists out,
                     filter to_delivery new = [Fetched (primary text) out]
                     /\ delivered out = true /\ b = true)
              \/ (exists out res,
                     filter to_delivery new
                     = [Fetched (primary text) out; Ran (fallback text) res]
                     /\ delivered out = false))).

(** A closed lock gate, for either revision's [speak]: the call answers
    [true] and the only call that left the process is the lock query. *)
Definition silent_when_locked
    (canSpeak : M JsValue) (speak : jsstring -> M bool) (query : Request) : Prop :=
  forall (text : jsstring) (w : World) (s s1 : State) (allowed : JsValue),
    canSpeak w s = (inr allowed, s1) ->
    Js.truthy allowed = false ->
    exists (s' : State) (new : list Effect),
      speak text w s = (inr true, s')
      /\ trace s' = trace s ++ new
      /\ filter to_primary new = []
      /\ filter to_fallback new = []
      /\ exists out, filter is_call new = [Fetched query out].

(** [speak] as a total function to booleans, for either revision: it
    returns, never throws, and the answer is [false] exactly when the trace
    shows a failed request to the primary channel and a failed run of the
    fallback executable. *)
Definition boolean_outcome
    (speak : jsstring -> M bool)
    (primary : jsstring -> Request) (fallback : jsstring -> Command) : Prop :=
  forall (text : jsstring) (w : World) (s : State),
    exists (b : bool) (s' : State) (new : list Effect),
      speak text w s = (inr b, s')
      /\ trace s' = trace s ++ new
      /\ (b = false <->
          exists out e,
            In (Fetched (primary text) out) new /\ delivered out = false
            /\ In (Ran (fallback text) (inl e)) new).

(** A 2xx answer to the lock query whose JSON body has no [canSpeak]
    property, or one that is not [true], closes the gate: [canSpeak]
    returns the property's value and [speak] answers [true] without a call
    to either delivery channel. *)
Definition locked_unless_true
    (canSpeak : M JsValue) (speak : jsstring -> M bool) (query : Request) : Prop :=
  forall (text : jsstring) (w : World) (s : State)
         (response : Response) (body field : JsValue),
    fetch_reply w (trace s) query = inr response ->
    ok response = true ->
    resp_json response = inr body ->
    Js.get body (js "canSpeak") = inr field ->
    field <> JBool true ->
    exists (s1 s' : State) (new : list Effect),
      canSpeak w s = (inr field, s1)
      /\ speak text w s = (inr true, s')
      /\ trace s' = trace s ++ new
      /\ filter to_primary new = []
      /\ filter to_fallback new = [].

(** The same with "not [true]" replaced by "falsy". *)
Definition locked_when_falsy
    (canSpeak : M JsValue) (speak : jsstring -> M bool) (query : Request) : Prop :=
  forall (text : jsstring) (w : World) (s : State)
         (response : Response) (body field : JsValue),
    fetch_reply w (trace s) query = inr response ->
    ok response = true ->
    resp_json response = inr body ->
    Js.get body (js "canSpeak") = inr field ->
    Js.truthy field = false ->
    exists (s1 s' : State) (new : list Effect),
      canSpeak w s = (inr field, s1)
      /\ speak text w s = (inr true, s')
      /\ trace s' = trace s ++ new
      /\ filter to_primary new = []
      /\ filter to_fallback new = [].

(** A world whose answers do not depend on the history: one for the lock
    query, one for the primary channel, one for the fallback executable and
    one for the store's insertion. *)
Definition fixed_world
    (lock primary : Exn + Response) (fallback store : Exn + unit) : World := {|
  fetch_reply := fun _ req => match req_method req with GET => lock | POST => primary end;
  shell_reply := fun _ cmd => if stderr_null cmd then store else fallback
|}.

Definition respond (status : Z) (body : Exn + JsValue) : Exn + Response :=
  inr {| resp_status := status; resp_json := body |}.

(* ================================================================== *)
(** ** The host's event loop and what a trace shows of it *)

(** The host delivers its events one at a time; each handler runs to
    completion before the next event is delivered. *)
Fixpoint events (config : Capture.TTSConfig) (input : Capture.PluginInput)
    (evs : list Capture.Event) : M unit :=
  match evs with
  | [] => ret tt
  | ev :: rest => Capture.event config input ev ;; events config input rest
  end.

(** The identifier of the newest assistant message in a session's message
    list: the first message with the assistant role, scanning from the
    end. *)
Definition newest_assistant (r : MessagesResponse) : option jsstring :=
  match find (fun m => JsString.eqb (role (info m)) (js "assistant"))
             (rev (match data r with Some ms => ms | None => [] end)) with
  | Some m => Some (id (info m))
  | None => None
  end.

(** What the session data fetched in a stretch of trace yielded: one entry
    per successful fetch, [None] when the session had no assistant
    message. *)
Definition observed (new : list Effect) : list (option jsstring) :=
  flat_map (fun e => match e with
                     | Listed _ (inr r) => [newest_assistant r]
                     | _ => []
                     end) new.

(** The message identifiers handed to the response store in a stretch of
    trace: those assigned to the marker right before a store write. *)
Fixpoint handed (tr : list Effect) : list jsstring :=
  match tr with
  | [] => []
  | Assigned i :: rest =>
    match rest with
    | Ran cmd _ :: _ => if stderr_null cmd then i :: handed rest else handed rest
    | _ => handed rest
    end
  | _ :: rest => handed rest
  end.

(** The effects [speak text] can have. *)
Definition speak_effect (query primary : Request) (fallback : Command) (e : Effect) : Prop :=
  (exists out, e = Fetched query out)
  \/ (exists out, e = Fetched primary out)
  \/ (exists res, e = Ran fallback res)
  \/ (exists level what, e = Printed level what).

(** The ways the capture half of the idle handler can go, as the effects
    it adds to the trace and the marker before and after. *)
Inductive capture_outcome (marker : option jsstring) :
    list Effect -> option jsstring -> Prop :=
| capture_skipped :
    capture_outcome marker [] marker
| capture_fetch_failed sid e :
    capture_outcome marker [Listed sid (inl e)] marker
| capture_no_assistant sid r :
    newest_assistant r = None ->
    capture_outcome marker [Listed sid (inr r)] marker
| capture_seen sid r i :
    newest_assistant r = Some i ->
    marker = Some i ->
    capture_outcome marker [Listed sid (inr r)] marker
| capture_new_without_text sid r i :
    newest_assistant r = Some i ->
    marker <> Some i ->
    capture_outcome marker [Listed sid (inr r); Assigned i] (Some i)
| capture_new_stored sid r i cmd out :
    newest_assistant r = Some i ->
    marker <> Some i ->
    stderr_null cmd = true ->
    capture_outcome marker [Listed sid (inr r); Assigned i; Ran cmd out] (Some i).

(* ================================================================== *)
(** ** Text extraction and the response store, in the specification's words *)

(** The text payload of a text-bearing part: a part of type "text" that
    carries a non-empty text. *)
Definition text_payload (p : Part) : option jsstring :=
  match part_text p with
  | Some text =>
    if JsString.eqb (part_type p) (js "text") && JsString.truthy text
    then Some text else None
  | None => None
  end.

Fixpoint text_payloads (ps : list Part) : list jsstring :=
  match ps with
  | [] => []
  | p :: rest =>
    match text_payload p with
    | Some text => text :: text_payloads rest
    | None => text_payloads rest
    end
  end.

(** Texts in order, with one newline between neighbours. *)
Fixpoint newline_separated (texts : list jsstring) : jsstring :=
  match texts with
  | [] => []
  | text :: rest =>
    match rest with
    | [] => text
    | _ :: _ => text ++ JsString.LF ++ newline_separated rest
    end
  end.

Definition whitespace_only (s : jsstring) : bool := forallb JsString.isWhiteSpace s.

Module Sql.

(** How SQL reads a string literal from just after its opening quote: two
    quotes stand for one quote character, a single quote closes the
    literal. The result is the literal's value and the text after it. *)
Fixpoint literal (s : jsstring) : option (jsstring * jsstring) :=
  match s with
  | [] => None
  | c :: rest =>
    if (c =? JsString.apostrophe)%N then
      match rest with
      | c' :: rest' =>
        if (c' =? JsString.apostrophe)%N then
          match literal rest' with
          | Some (value, tail) => Some (JsString.apostrophe :: value, tail)
          | None => None
          end
        else Some ([], rest)
      | [] => Some ([], [])
      end
    else
      match literal rest with
      | Some (value, tail) => Some (c :: value, tail)
      | None => None
      end
  end.

Fixpoint after_prefix (prefix s : jsstring) : option jsstring :=
  match prefix, s with
  | [], _ => Some s
  | p :: prefix', c :: s' => if (p =? c)%N then after_prefix prefix' s' else None
  | _ :: _, [] => None
  end.

(** The content a statement inserts, when the statement is exactly one
    insertion of one string literal into [AiResponses (Content)]. *)
Definition inserted_content (statement : jsstring) : option jsstring :=
  match after_prefix (js "INSERT INTO AiResponses (Content) VALUES ('") statement with
  | Some rest =>
    match literal rest with
    | Some (value, tail) => if JsString.eqb tail (js ");") then Some value else None
    | None => None
    end
  | None => None
  end.

End Sql.

(** C6 as the claim words it: once an event's store write for message [i]
    has failed, no later event hands [i] to the store again. *)
Definition never_handed_again
    (config : Capture.TTSConfig) (input : Capture.PluginInput) (w : World) : Prop :=
  forall (ev : Capture.Event) (later : list Capture.Event)
         (s s1 s2 : State) (r1 r2 : Exn + unit)
         (pre tail : list Effect) (i : jsstring) (cmd : Command) (e : Exn),
    Capture.event config input ev w s = (r1, s1) ->
    trace s1 = trace s ++ pre ++ [Assigned i; Ran cmd (inl e)] ->
    stderr_null cmd = true ->
    events config input later w s1 = (r2, s2) ->
    trace s2 = trace s1 ++ tail ->
    ~ In i (handed tail).

(** The two statements of the capturing handler's body, one by one. *)
Definition announce_step (config : Capture.TTSConfig) (ev : Capture.Event) : M unit :=
  if JsString.eqb (Capture.type ev) (js "session.idle") && Capture.announceOnIdle config then
    Capture.speak config (Capture.idleMessage config) ;;
    ret tt
  else
    ret tt.

Definition capture_step (config : Capture.TTSConfig) (input : Capture.PluginInput)
    (ev : Capture.Event) : M unit :=
  if JsString.eqb (Capture.type ev) (js "session.idle") && Capture.storeAiResponses config then
    match Capture.client input with
    | None => ret tt
    | Some client =>
      try_catch
        (messagesResponse <- session_messages client (Capture.sessionID (Capture.properties ev)) ;;
         match find (fun m => JsString.eqb (role (info m)) (js "assistant"))
                    (rev (match data messagesResponse with Some ms => ms | None => [] end)) with
         | Some m =>
           last <- read_lastProcessedMessageId ;;
           if Capture.differs (id (info m)) last then
             assign_lastProcessedMessageId (id (info m)) ;;
             if JsString.truthy (Capture.extractTextFromParts (parts m))
             then Capture.storeAiResponse config (Capture.extractTextFromParts (parts m))
             else ret tt
           else ret tt
         | None => ret tt
         end)
        (fun _ => ret tt)
    end
  else
    ret tt.

(* ================================================================== *)
(** ** Scenarios *)

Definition says (field : JsValue) : Exn + Response :=
  respond 200 (inr (JObject [(js "canSpeak", field)])).

Definition unlocked : Exn + Response := says (JBool true).
Definition locked : Exn + Response := says (JBool false).
Definition server_error : Exn + Response := respond 500 (inl SyntaxError).
Definition accepted : Exn + Response := respond 200 (inr (JObject [])).

Definition env_of (bindings : list (jsstring * jsstring)) : Env :=
  fun name =>
    match find (fun binding => JsString.eqb name (fst binding)) bindings with
    | Some binding => Some (snd binding)
    | None => None
    end.

(** Idle announcements switched on, everything else at its default. *)
Definition announcing : Index.TTSConfig :=
  Index.loadConfig (env_of [(js "OPENCODE_TTS_ANNOUNCE_IDLE", js "true")]).

(** Response capture switched on, everything else at its default. *)
Definition capturing : Capture.TTSConfig :=
  Capture.loadConfig (env_of [(js "OPENCODE_STORE_AI_RESPONSES", js "true")]).

Definition idle (session : jsstring) : Capture.Event :=
  {| Capture.type := js "session.idle";
     Capture.properties := {| Capture.sessionID := session |} |}.

Definition text_part (text : jsstring) : Part :=
  {| part_type := js "text"; part_text := Some text |}.

(** A session of one question and one answer. *)
Definition session_of (answerId answer : jsstring) : MessagesResponse :=
  {| data := Some [ {| info := {| id := js "msg_q"; role := js "user" |};
                       parts := [text_part (js "?")] |};
                    {| info := {| id := answerId; role := js "assistant" |};
                       parts := [text_part answer] |} ] |}.

(** A host with one session that does not change. *)
Definition steady_host : Capture.PluginInput :=
  {| Capture.client :=
       Some {| messages_reply := fun _ _ => inr (session_of (js "msg_a") (js "A")) |} |}.

(** A host with two sessions, each with its own newest answer. *)
Definition two_session_host : Capture.PluginInput :=
  {| Capture.client :=
       Some {| messages_reply := fun _ session =>
                 if JsString.eqb session (js "ses_1")
                 then inr (session_of (js "msg_a") (js "A"))
                 else inr (session_of (js "msg_b") (js "B")) |} |}.

(** A world in which every insertion into the store fails. *)
Definition store_down : World :=
  fixed_world unlocked accepted (inr tt) (inl (ShellError 1)).

Definition after_lock_query (config : Index.TTSConfig) (reply : Exn + Response) : State :=
  record (Fetched (Index.canSpeakRequest config) reply) initial.

(* ================================================================== *)
(** ** Across the revisions *)

(** The settings the oldest revision shares with [src/index.ts]. *)
Definition ungate (config : Index.TTSConfig) : Ungated.TTSConfig := {|
  Ungated.apiUrl := Index.apiUrl config;
  Ungated.fallbackScript := Index.fallbackScript config;
  Ungated.announceOnIdle := Index.announceOnIdle config;
  Ungated.idleMessage := Index.idleMessage config
|}.

(** Two configurations that name the same lock endpoint, primary endpoint
    and fallback executable. *)
Definition same_channels (a : Index.TTSConfig) (b : Capture.TTSConfig) : Prop :=
  Capture.apiUrl b = Index.apiUrl a
  /\ Capture.canSpeakUrl b = Index.canSpeakUrl a
  /\ Capture.fallbackScript b = Index.fallbackScript a.

(** A trace without its console output. *)
Definition quiet (tr : list Effect) : list Effect :=
  filter (fun e => match e with Printed _ _ => false | _ => true end) tr.

(** A world that does not read the console: its answers depend on the
    history only up to console output. *)
Definition console_blind (w : World) : Prop :=
  forall h h' : list Effect,
    quiet h = quiet h' ->
    (forall req, fetch_reply w h req = fetch_reply w h' req)
    /\ (forall cmd, shell_reply w h cmd = shell_reply w h' cmd).

(** The assistant messages of a list, in order. *)
Definition is_assistant (m : Message) : bool :=
  JsString.eqb (role (info m)) (js "assistant").

(** An environment as a total lookup with nothing set. *)
Definition no_env : Env := fun _ => None.

(** The boolean of [speak] read off the world's replies, for any revision
    with a lock gate. Behind an open gate, let [out] be the world's reply
    to the primary request and [res] its reply to the fallback command at
    the history that follows a failed request ([noted out] is what the
    revision prints in between): the call returns [true] when [out] is a
    2xx response or [res] is a normal exit, and [false] otherwise, that is
    when the primary channel failed and the fallback executable failed. *)
Definition boolean_tracks_replies
    (canSpeak : M JsValue) (speak : jsstring -> M bool)
    (primary : jsstring -> Request) (fallback : jsstring -> Command)
    (noted : Exn + Response -> list Effect) : Prop :=
  forall (text : jsstring) (w : World) (s s1 : State) (allowed : JsValue),
    canSpeak w s = (inr allowed, s1) ->
    Js.truthy allowed = true ->
    let out := fetch_reply w (trace s1) (primary text) in
    let res := shell_reply w (trace s1 ++ Fetched (primary text) out :: noted out)
                 (fallback text) in
    exists s' : State,
      speak text w s
      = (inr (delivered out || match res with inr _ => true | inl _ => false end), s').

(* ================================================================== *)
(** ** Proof support *)

Ltac run :=
  unfold bind, try_catch, fetch, shell, session_messages, console,
    read_lastProcessedMessageId, assign_lastProcessedMessageId,
    settle, ret, throw, record;
  cbn beta iota zeta.

(** Split on the first scrutinee that is stuck in the goal. *)
Ltac split_goal :=
  match goal with
  | |- context [match ?x with _ => _ end] =>
    lazymatch x with
    | context [match _ with _ => _ end] => fail
    | _ => destruct x eqn:?
    end
  end;
  cbn beta iota zeta delta [fst snd trace lastProcessedMessageId] in *.

(* ================================================================== *)
(** ** The lock gate *)

Ltac finish_fail_open :=
  eexists _, _, _; (split; [reflexivity|]);
  cbn [trace lastProcessedMessageId]; rewrite <- ?app_assoc;
  (split; [reflexivity|]); (split; [reflexivity|]);
  (split; [reflexivity|]); repeat split; intros; congruence.

Lemma Index_canSpeak_fail_open (config : Index.TTSConfig) :
  fail_open (Index.canSpeak config) (Index.canSpeakRequest config).
Proof.
  intros w s. unfold Index.canSpeak. run.
  repeat split_goal; finish_fail_open.
Qed.

Lemma Capture_canSpeak_fail_open (config : Capture.TTSConfig) :
  fail_open (Capture.canSpeak config) (Capture.canSpeakRequest config).
Proof.
  intros w s. unfold Capture.canSpeak. run.
  repeat split_goal; finish_fail_open.
Qed.

(** C3. The lock gate is fail-open and total in both revisions: whatever
    the world answers, [canSpeak] returns a value without throwing, after
    exactly one call, the lock query; it returns [true] when the query
    throws (network error, timeout), when the status is not 2xx, and when
    the body cannot be read as JSON. *)
Theorem canSpeak_fail_open_total :
  (forall config, fail_open (Index.canSpeak config) (Index.canSpeakRequest config))
  /\ (forall config, fail_open (Capture.canSpeak config) (Capture.canSpeakRequest config)).
Proof.
  split; intro config.
  - apply Index_canSpeak_fail_open.
  - apply Capture_canSpeak_fail_open.
Qed.

Lemma canSpeak_fail_open_total_witness :
  exists s',
    Index.canSpeak Index.defaultConfig
      (fixed_world (inl TimeoutError) (inl NetworkError) (inr tt) (inr tt)) initial
    = (inr (JBool true), s').
Proof.
  destruct (proj1 canSpeak_fail_open_total Index.defaultConfig
              (fixed_world (inl TimeoutError) (inl NetworkError) (inr tt) (inr tt)) initial)
    as (v & s' & new & Hrun & _ & _ & _ & Hthrow & _).
  exists s'. rewrite Hrun. rewrite (Hthrow TimeoutError); reflexivity.
Defined.

(* ================================================================== *)
(** ** The delivery chain *)

Lemma bind_run {A B} (m : M A) (k : A -> M B) (w : World) (s : State) :
  bind m k w s =
  match m w s with
  | (inr a, s') => k a w s'
  | (inl e, s') => (inl e, s')
  end.
Proof. reflexivity. Qed.

Ltac finish_chain :=
  eexists _, _, _; (split; [reflexivity|]);
  cbn [trace lastProcessedMessageId]; rewrite <- ?app_assoc;
  (split; [reflexivity|]); cbn; eauto.

Ltac finish_order :=
  eexists _, _, _; (split; [reflexivity|]);
  cbn [trace lastProcessedMessageId]; rewrite <- ?app_assoc;
  (split; [reflexivity|]); cbn;
  first [ left; reflexivity
        | right; left; eexists; repeat split; (reflexivity || assumption)
        | right; right; eexists _, _; repeat split; (reflexivity || assumption) ].

Lemma Index_delivery_chain_order (config : Index.TTSConfig) :
  delivery_chain_order (Index.canSpeak config) (Index.speak config)
    (Index.speakRequest config) (Index.fallbackCommand config).
Proof.
  split.
  - intros text w s s1 allowed Hlock Hopen out. subst out.
    unfold Index.speak, delivered. rewrite bind_run, Hlock, Hopen.
    cbn [negb]. run.
    repeat split_goal; finish_chain.
  - intros text w s.
    unfold Index.speak, Index.canSpeak, delivered. run.
    repeat split_goal; finish_order.
Qed.

Lemma Capture_delivery_chain_order (config : Capture.TTSConfig) :
  delivery_chain_order (Capture.canSpeak config) (Capture.speak config)
    (Capture.speakRequest config) (Capture.fallbackCommand config).
Proof.
  split.
  - intros text w s s1 allowed Hlock Hopen out. subst out.
    unfold Capture.speak, delivered. rewrite bind_run, Hlock, Hopen.
    cbn [negb]. run.
    repeat split_goal; finish_chain.
  - intros text w s.
    unfold Capture.speak, Capture.canSpeak, delivered. run.
    repeat split_goal; finish_order.
Qed.

Ltac finish_locked :=
  eexists _, _; (split; [reflexivity|]);
  cbn [trace lastProcessedMessageId]; rewrite <- ?app_assoc;
  (split; [reflexivity|]); cbn; eauto.

Lemma Index_silent_when_locked (config : Index.TTSConfig) :
  silent_when_locked (Index.canSpeak config) (Index.speak config)
    (Index.canSpeakRequest config).
Proof.
  intros text w s s1 allowed Hlock Hshut.
  unfold Index.speak. rewrite bind_run, Hlock, Hshut. cbn [negb].
  revert Hlock. unfold Index.canSpeak. run.
  repeat split_goal; intros Hlock; inversion Hlock; subst;
    try discriminate Hshut; finish_locked.
Qed.

Lemma Capture_silent_when_locked (config : Capture.TTSConfig) :
  silent_when_locked (Capture.canSpeak config) (Capture.speak config)
    (Capture.canSpeakRequest config).
Proof.
  intros text w s s1 allowed Hlock Hshut.
  unfold Capture.speak. rewrite bind_run, Hlock, Hshut. cbn [negb].
  revert Hlock. unfold Capture.canSpeak. run.
  repeat split_goal; intros Hlock; inversion Hlock; subst;
    try discriminate Hshut; finish_locked.
Qed.

Ltac refute_in :=
  repeat match goal with
         | H : _ \/ _ |- _ => destruct H
         | H : False |- _ => contradiction H
         | H : In _ _ |- _ => cbn in H
         | H : delivered _ = _ |- _ => progress cbn in H
         end;
  try congruence.

Ltac finish_outcome :=
  eexists _, _, _; (split; [reflexivity|]);
  cbn [trace lastProcessedMessageId]; rewrite <- ?app_assoc;
  (split; [reflexivity|]);
  split;
  [ intros ?; try discriminate;
    eexists _, _; cbn; repeat split; eauto 8
  | intros (? & ? & ? & ? & ?); try reflexivity; exfalso; refute_in ].

Lemma Index_boolean_outcome (config : Index.TTSConfig) :
  boolean_outcome (Index.speak config)
    (Index.speakRequest config) (Index.fallbackCommand config).
Proof.
  intros text w s.
  unfold Index.speak, Index.canSpeak. run.
  repeat split_goal; finish_outcome.
Qed.

Lemma Capture_boolean_outcome (config : Capture.TTSConfig) :
  boolean_outcome (Capture.speak config)
    (Capture.speakRequest config) (Capture.fallbackCommand config).
Proof.
  intros text w s.
  unfold Capture.speak, Capture.canSpeak. run.
  repeat split_goal; finish_outcome.
Qed.

Ltac finish_falsy :=
  eexists _, _, _; (split; [reflexivity|]); (split; [reflexivity|]);
  cbn [trace lastProcessedMessageId]; rewrite <- ?app_assoc;
  (split; [reflexivity|]); cbn; auto.

Lemma Index_locked_when_falsy (config : Index.TTSConfig) :
  locked_when_falsy (Index.canSpeak config) (Index.speak config)
    (Index.canSpeakRequest config).
Proof.
  intros text w s response body field Hreply Hok Hbody Hfield Hfalsy.
  unfold Index.speak, Index.canSpeak. run.
  rewrite Hreply, Hok, Hbody, Hfield, Hfalsy. cbn [negb].
  finish_falsy.
Qed.

Lemma Capture_locked_when_falsy (config : Capture.TTSConfig) :
  locked_when_falsy (Capture.canSpeak config) (Capture.speak config)
    (Capture.canSpeakRequest config).
Proof.
  intros text w s response body field Hreply Hok Hbody Hfield Hfalsy.
  unfold Capture.speak, Capture.canSpeak. run.
  rewrite Hreply, Hok, Hbody, Hfield, Hfalsy. cbn [negb].
  finish_falsy.
Qed.

(* ================================================================== *)
(** ** Claims about [canSpeak] and [speak] *)

Example idle_literal :
  js "Úkol dokončen." = [218; 107; 111; 108; 32; 100; 111; 107; 111; 110; 269; 101; 110; 46]%N.
Proof. reflexivity. Qed.

(** C1. Delivery-chain order, in both revisions. Once the lock gate has
    let the call through, [speak text] first sends the text to the primary
    channel: a POST to [apiUrl] with the JSON content type whose body is
    the object with the single property "text" holding [text] itself. A
    2xx status makes it return [true] and no other call is made; any
    failure of the primary channel (a status outside 2xx or a thrown
    network error) is followed by exactly one run of the fallback
    executable, whose command line is [fallbackScript] and then [text],
    unmodified, as the one argument. In every run, whatever the gate said,
    the delivery calls are in that order: the fallback never runs without
    a failed request to the primary channel before it. *)
Theorem speak_delivery_chain_order :
  (forall config : Index.TTSConfig,
      delivery_chain_order (Index.canSpeak config) (Index.speak config)
        (fun text =>
           {| req_url := Index.apiUrl config;
              req_method := POST;
              req_headers := [(js "Content-Type", js "application/json")];
              req_body := Some (JObject [(js "text", JString text)]);
              req_timeout := None |})
        (fun text =>
           {| argv := [Index.fallbackScript config; text]; stderr_null := false |}))
  /\ (forall config : Capture.TTSConfig,
        delivery_chain_order (Capture.canSpeak config) (Capture.speak config)
          (fun text =>
           {| req_url := Capture.apiUrl config;
              req_method := POST;
              req_headers := [(js "Content-Type", js "application/json")];
              req_body := Some (JObject [(js "text", JString text)]);
              req_timeout := None |})
          (fun text =>
           {| argv := [Capture.fallbackScript config; text]; stderr_null := false |})).
Proof.
  split; intro config.
  - exact (Index_delivery_chain_order config).
  - exact (Capture_delivery_chain_order config).
Qed.

Lemma speak_delivery_chain_order_witness :
  let config := Index.defaultConfig in
  let text := js "Hotovo." in
  let w := fixed_world unlocked server_error (inr tt) (inr tt) in
  exists (b : bool) (s' : State) (new : list Effect),
    Index.speak config text w initial = (inr b, s')
    /\ trace s' = trace (after_lock_query config unlocked) ++ new
    /\ exists res,
         filter is_call new =
         [Fetched {| req_url := Index.apiUrl config;
                     req_method := POST;
                     req_headers := [(js "Content-Type", js "application/json")];
                     req_body := Some (JObject [(js "text", JString text)]);
                     req_timeout := None |} server_error;
          Ran {| argv := [Index.fallbackScript config; text];
                 stderr_null := false |} res].
Proof.
  exact (proj1 (proj1 speak_delivery_chain_order Index.defaultConfig) (js "Hotovo.")
           (fixed_world unlocked server_error (inr tt) (inr tt))
           initial (after_lock_query Index.defaultConfig unlocked) (JBool true)
           eq_refl eq_refl).
Defined.

(** C2. A closed lock gate, in both revisions: when [canSpeak] reports
    that speech is not permitted, [speak text] returns [true], and the
    lock query is the only call it made: no request to the primary
    channel, no run of the fallback executable. *)
Theorem speak_silent_when_locked :
  (forall config,
      silent_when_locked (Index.canSpeak config) (Index.speak config)
        (Index.canSpeakRequest config))
  /\ (forall config,
        silent_when_locked (Capture.canSpeak config) (Capture.speak config)
          (Capture.canSpeakRequest config)).
Proof.
  split; intro config.
  - apply Index_silent_when_locked.
  - apply Capture_silent_when_locked.
Qed.

Lemma speak_silent_when_locked_witness :
  let config := Index.defaultConfig in
  let w := fixed_world locked accepted (inr tt) (inr tt) in
  exists (s' : State) (new : list Effect),
    Index.speak config (js "Hotovo.") w initial = (inr true, s')
    /\ trace s' = trace initial ++ new
    /\ filter to_primary new = []
    /\ filter to_fallback new = []
    /\ exists out, filter is_call new = [Fetched (Index.canSpeakRequest config) out].
Proof.
  exact (proj1 speak_silent_when_locked Index.defaultConfig (js "Hotovo.")
           (fixed_world locked accepted (inr tt) (inr tt))
           initial (after_lock_query Index.defaultConfig locked) (JBool false)
           eq_refl eq_refl).
Defined.

Ltac finish_replies :=
  repeat (rewrite <- ?app_assoc; cbn [app]; split_goal);
  eexists; reflexivity.

Lemma Index_boolean_tracks_replies (config : Index.TTSConfig) :
  boolean_tracks_replies (Index.canSpeak config) (Index.speak config)
    (Index.speakRequest config) (Index.fallbackCommand config)
    (fun out =>
       [Printed Warn match out with
                     | inl e => ApiUnavailable e
                     | inr response => ApiReturned (resp_status response)
                     end]).
Proof.
  intros text w s s1 allowed Hlock Hopen out res. subst out res.
  unfold Index.speak, delivered. rewrite bind_run, Hlock, Hopen.
  cbn [negb]. run. finish_replies.
Qed.

Lemma Capture_boolean_tracks_replies (config : Capture.TTSConfig) :
  boolean_tracks_replies (Capture.canSpeak config) (Capture.speak config)
    (Capture.speakRequest config) (Capture.fallbackCommand config)
    (fun _ => []).
Proof.
  intros text w s s1 allowed Hlock Hopen out res. subst out res.
  unfold Capture.speak, delivered. rewrite bind_run, Hlock, Hopen.
  cbn [negb]. run. finish_replies.
Qed.

(** C4. In both revisions [speak text] returns a boolean and never throws,
    for every text, world and state; the boolean is [false] exactly when
    the request to the primary channel failed and the run of the fallback
    executable failed too. This is stated twice. On the trace: [false]
    exactly when the trace holds a failed primary request and a failed
    fallback run. On the world: behind an open lock gate the boolean is
    [true] when the world answers the POST of [text] with a 2xx response
    or lets the command [fallbackScript text] exit normally, and [false]
    when the POST fails (another status, a thrown error) and the command
    throws. *)
Theorem speak_boolean_never_throws :
  (forall config : Index.TTSConfig,
      boolean_outcome (Index.speak config)
        (fun text =>
           {| req_url := Index.apiUrl config;
              req_method := POST;
              req_headers := [(js "Content-Type", js "application/json")];
              req_body := Some (JObject [(js "text", JString text)]);
              req_timeout := None |})
        (fun text =>
           {| argv := [Index.fallbackScript config; text]; stderr_null := false |})
      /\ boolean_tracks_replies (Index.canSpeak config) (Index.speak config)
           (fun text =>
           {| req_url := Index.apiUrl config;
              req_method := POST;
              req_headers := [(js "Content-Type", js "application/json")];
              req_body := Some (JObject [(js "text", JString text)]);
              req_timeout := None |})
           (fun text =>
           {| argv := [Index.fallbackScript config; text]; stderr_null := false |})
           (fun out =>
              [Printed Warn match out with
                            | inl e => ApiUnavailable e
                            | inr response => ApiReturned (resp_status response)
                            end]))
  /\ (forall config : Capture.TTSConfig,
        boolean_outcome (Capture.speak config)
          (fun text =>
           {| req_url := Capture.apiUrl config;
              req_method := POST;
              req_headers := [(js "Content-Type", js "application/json")];
              req_body := Some (JObject [(js "text", JString text)]);
              req_timeout := None |})
          (fun text =>
           {| argv := [Capture.fallbackScript config; text]; stderr_null := false |})
        /\ boolean_tracks_replies (Capture.canSpeak config) (Capture.speak config)
             (fun text =>
           {| req_url := Capture.apiUrl config;
              req_method := POST;
              req_headers := [(js "Content-Type", js "application/json")];
              req_body := Some (JObject [(js "text", JString text)]);
              req_timeout := None |})
             (fun text =>
           {| argv := [Capture.fallbackScript config; text]; stderr_null := false |})
             (fun _ => [])).
Proof.
  split; intro config; split.
  - exact (Index_boolean_outcome config).
  - exact (Index_boolean_tracks_replies config).
  - exact (Capture_boolean_outcome config).
  - exact (Capture_boolean_tracks_replies config).
Qed.

Lemma speak_boolean_never_throws_witness :
  let w := fixed_world unlocked server_error (inl (ShellError 127)) (inr tt) in
  (exists s',
      Index.speak Index.defaultConfig (js "Hotovo.") w initial = (inr false, s'))
  /\ (exists s',
        Capture.speak Capture.defaultConfig (js "Hotovo.") w initial = (inr false, s')).
Proof.
  split.
  - exact (proj2 (proj1 speak_boolean_never_throws Index.defaultConfig) (js "Hotovo.")
             (fixed_world unlocked server_error (inl (ShellError 127)) (inr tt))
             initial (after_lock_query Index.defaultConfig unlocked) (JBool true)
             eq_refl eq_refl).
  - exact (proj2 (proj2 speak_boolean_never_throws Capture.defaultConfig) (js "Hotovo.")
             (fixed_world unlocked server_error (inl (ShellError 127)) (inr tt))
             initial
             (record (Fetched (Capture.canSpeakRequest Capture.defaultConfig) unlocked) initial)
             (JBool true) eq_refl eq_refl).
Defined.

(** C10, as the claim states it, fails: a 2xx answer whose [canSpeak] is
    the text "false" is not [true], yet it is truthy, and the delivery
    goes ahead. *)
Lemma field_not_true_is_not_locked :
  ~ locked_unless_true (Index.canSpeak Index.defaultConfig)
      (Index.speak Index.defaultConfig) (Index.canSpeakRequest Index.defaultConfig).
Proof.
  intro H.
  destruct (H (js "Hotovo.")
              (fixed_world (says (JString (js "false"))) accepted (inr tt) (inr tt))
              initial
              {| resp_status := 200;
                 resp_json := inr (JObject [(js "canSpeak", JString (js "false"))]) |}
              (JObject [(js "canSpeak", JString (js "false"))])
              (JString (js "false"))
              eq_refl eq_refl eq_refl eq_refl ltac:(discriminate))
    as (s1 & s' & new & _ & Hrun & Htrace & Hprimary & _).
  vm_compute in Hrun. inversion Hrun; subst; clear Hrun.
  cbn in Htrace. subst new. discriminate Hprimary.
Qed.

(** C10, amended. In both revisions, when the lock query is answered with
    a 2xx status and a JSON body whose [canSpeak] property is absent or
    falsy ([false], [null], zero, the empty string), [canSpeak] returns
    that value ([undefined] when absent) and [speak] returns [true]
    without a request to the primary channel or a run of the fallback
    executable. *)
Theorem speak_locked_when_field_falsy :
  (forall config,
      locked_when_falsy (Index.canSpeak config) (Index.speak config)
        (Index.canSpeakRequest config))
  /\ (forall config,
        locked_when_falsy (Capture.canSpeak config) (Capture.speak config)
          (Capture.canSpeakRequest config)).
Proof.
  split; intro config.
  - apply Index_locked_when_falsy.
  - apply Capture_locked_when_falsy.
Qed.

Lemma speak_locked_when_field_falsy_witness :
  let config := Index.defaultConfig in
  let w := fixed_world accepted accepted (inr tt) (inr tt) in
  exists (s1 s' : State) (new : list Effect),
    Index.canSpeak config w initial = (inr JUndefined, s1)
    /\ Index.speak config (js "Hotovo.") w initial = (inr true, s')
    /\ trace s' = trace initial ++ new
    /\ filter to_primary new = []
    /\ filter to_fallback new = [].
Proof.
  exact (proj1 speak_locked_when_field_falsy Index.defaultConfig (js "Hotovo.")
           (fixed_world accepted accepted (inr tt) (inr tt)) initial
           {| resp_status := 200; resp_json := inr (JObject []) |}
           (JObject []) JUndefined
           eq_refl eq_refl eq_refl eq_refl eq_refl).
Defined.

(* ================================================================== *)
(** ** Text extraction *)

Lemma filter_map_text_payloads (ps : list Part) :
  map (fun part => part_text part)
    (filter (fun part =>
               JsString.eqb (part_type part) (js "text")
               && match part_text part with
                  | Some text => JsString.truthy text
                  | None => false
                  end) ps)
  = map Some (text_payloads ps).
Proof.
  induction ps as [|p ps IH]; [reflexivity|].
  cbn [filter text_payloads]. unfold text_payload.
  destruct (part_text p) as [text|] eqn:Htext.
  - destruct (JsString.eqb (part_type p) (js "text") && JsString.truthy text).
    + cbn [map]. now rewrite Htext, IH.
    + exact IH.
  - rewrite andb_false_r. exact IH.
Qed.

Lemma join_some (texts : list jsstring) :
  JsString.join JsString.LF (map Some texts) = newline_separated texts.
Proof.
  induction texts as [|text rest IH]; [reflexivity|].
  destruct rest as [|text' rest]; [reflexivity|].
  change (JsString.join JsString.LF (map Some (text :: text' :: rest)))
    with (text ++ JsString.LF ++ JsString.join JsString.LF (map Some (text' :: rest))).
  now rewrite IH.
Qed.

(** C7. Text extraction: for every list of parts, the captured content is
    the text payloads of the text-bearing parts (type "text", non-empty
    text), in their original order, with a newline between neighbours;
    for a text part "A", a part of another type and a text part "B" it is
    "A", newline, "B". *)
Theorem extractTextFromParts_joins_text_parts :
  (forall ps : list Part,
      Capture.extractTextFromParts ps = newline_separated (text_payloads ps))
  /\ Capture.extractTextFromParts
       [ {| part_type := js "text"; part_text := Some (js "A") |};
         {| part_type := js "other"; part_text := None |};
         {| part_type := js "text"; part_text := Some (js "B") |} ]
     = js "A" ++ JsString.LF ++ js "B".
Proof.
  split; [|reflexivity].
  intro ps. unfold Capture.extractTextFromParts.
  now rewrite filter_map_text_payloads, join_some.
Qed.

(* ================================================================== *)
(** ** The response store *)

Lemma trimStart_nil (s : jsstring) :
  JsString.trimStart s = [] <-> whitespace_only s = true.
Proof.
  induction s as [|c s IH]; cbn; [tauto|].
  destruct (JsString.isWhiteSpace c); cbn; [exact IH|].
  split; discriminate.
Qed.

Lemma trimStart_head (s : jsstring) (c : N) (r : jsstring) :
  JsString.trimStart s = c :: r -> JsString.isWhiteSpace c = false.
Proof.
  induction s as [|d s IH]; cbn; [discriminate|].
  destruct (JsString.isWhiteSpace d) eqn:Hd; [exact IH|].
  intros H. injection H as -> _. exact Hd.
Qed.

Lemma trim_truthy (s : jsstring) :
  JsString.truthy (JsString.trim s) = negb (whitespace_only s).
Proof.
  unfold JsString.trim, JsString.trimEnd.
  destruct (JsString.trimStart s) as [|c r] eqn:Hstart.
  - apply trimStart_nil in Hstart. now rewrite Hstart.
  - assert (Hs : whitespace_only s = false).
    { destruct (whitespace_only s) eqn:Hw; [|reflexivity].
      apply trimStart_nil in Hw. congruence. }
    rewrite Hs. apply trimStart_head in Hstart.
    destruct (JsString.trimStart (rev (c :: r))) as [|d t] eqn:Hend.
    + apply trimStart_nil in Hend. unfold whitespace_only in Hend.
      cbn [rev] in Hend. rewrite forallb_app in Hend. cbn in Hend.
      rewrite Hstart in Hend. rewrite andb_false_r in Hend. discriminate.
    + cbn [rev]. destruct (rev t); reflexivity.
Qed.

Lemma literal_doubled (content tail : jsstring) :
  hd 0%N tail <> JsString.apostrophe ->
  Sql.literal (JsString.doubleApostrophes content ++ JsString.apostrophe :: tail)
  = Some (content, tail).
Proof.
  intros Htail. induction content as [|c r IH].
  - cbn. destruct tail as [|c' tail']; [reflexivity|].
    cbn in Htail. apply N.eqb_neq in Htail. now rewrite Htail.
  - unfold JsString.doubleApostrophes in *. cbn [flat_map].
    destruct (N.eqb_spec c JsString.apostrophe) as [->|Hc].
    + cbn [app Sql.literal]. rewrite N.eqb_refl. now rewrite IH.
    + cbn [app Sql.literal]. apply N.eqb_neq in Hc. now rewrite Hc, IH.
Qed.

Lemma after_prefix_app (prefix s : jsstring) :
  Sql.after_prefix prefix (prefix ++ s) = Some s.
Proof.
  induction prefix as [|p prefix IH]; [reflexivity|].
  cbn. now rewrite N.eqb_refl.
Qed.

Lemma eqb_eq (a b : jsstring) : JsString.eqb a b = true <-> a = b.
Proof.
  unfold JsString.eqb. destruct (list_eq_dec N.eq_dec a b); split; congruence.
Qed.

Lemma inserted_content_escaped (content : jsstring) :
  Sql.inserted_content (Capture.insertStatement (JsString.doubleApostrophes content))
  = Some content.
Proof.
  unfold Sql.inserted_content, Capture.insertStatement.
  rewrite after_prefix_app.
  change (js "');") with (JsString.apostrophe :: js ");").
  rewrite literal_doubled by (vm_compute; discriminate).
  reflexivity.
Qed.

(** C8. The response store's contract. [storeAiResponse content] does
    nothing at all when storage is disabled or the content is empty or
    only whitespace. Otherwise it runs one sqlite3 command on the
    configured database whose statement, read by SQL's rule for string
    literals, inserts exactly [content], quote characters included (for
    O'Brien the literal is 'O''Brien'); and whether that command succeeds
    or fails, the call returns normally. *)
Theorem storeAiResponse_contract :
  (forall (config : Capture.TTSConfig) (content : jsstring) (w : World) (s : State),
      (Capture.storeAiResponses config = false \/ whitespace_only content = true ->
       Capture.storeAiResponse config content w s = (inr tt, s))
      /\ (Capture.storeAiResponses config = true ->
          whitespace_only content = false ->
          exists statement : jsstring,
            Sql.inserted_content statement = Some content
            /\ let cmd := {| argv := [js "sqlite3"; Capture.dbPath config; statement];
                             stderr_null := true |} in
               Capture.storeAiResponse config content w s
               = (inr tt, record (Ran cmd (shell_reply w (trace s) cmd)) s)))
  /\ Capture.insertStatement (JsString.doubleApostrophes (js "O'Brien"))
     = js "INSERT INTO AiResponses (Content) VALUES ('O''Brien');".
Proof.
  split; [|reflexivity].
  intros config content w s. unfold Capture.storeAiResponse.
  rewrite trim_truthy, negb_involutive. split.
  - intros [-> | ->]; [reflexivity|]. now rewrite orb_true_r.
  - intros -> ->. cbn [negb orb].
    exists (Capture.insertStatement (JsString.doubleApostrophes content)).
    split; [apply inserted_content_escaped|].
    cbn zeta. unfold try_catch, shell, Capture.insertCommand.
    cbn zeta. destruct (shell_reply w (trace s) _) as [e|[]]; reflexivity.
Qed.

Lemma storeAiResponse_contract_witness :
  let w := fixed_world unlocked accepted (inr tt) (inl (ShellError 1)) in
  Capture.storeAiResponse Capture.defaultConfig (js "O'Brien") w initial = (inr tt, initial)
  /\ exists statement : jsstring,
       Sql.inserted_content statement = Some (js "O'Brien")
       /\ let cmd := {| argv := [js "sqlite3"; Capture.dbPath capturing; statement];
                        stderr_null := true |} in
          Capture.storeAiResponse capturing (js "O'Brien") w initial
          = (inr tt, record (Ran cmd (shell_reply w (trace initial) cmd)) initial).
Proof.
  split.
  - exact (proj1 (proj1 storeAiResponse_contract Capture.defaultConfig (js "O'Brien")
                    (fixed_world unlocked accepted (inr tt) (inl (ShellError 1))) initial)
             (or_introl eq_refl)).
  - exact (proj2 (proj1 storeAiResponse_contract capturing (js "O'Brien")
                    (fixed_world unlocked accepted (inr tt) (inl (ShellError 1))) initial)
             eq_refl eq_refl).
Defined.

(* ================================================================== *)
(** ** The idle handler *)

Ltac finish_frame :=
  eexists _, _; split;
  [ cbn [trace lastProcessedMessageId]; rewrite <- ?app_assoc; reflexivity
  | cbn [app]; repeat apply Forall_cons; try apply Forall_nil;
    unfold speak_effect; eauto 10 ].

Lemma Index_speak_frame (config : Index.TTSConfig) (text : jsstring) (w : World) (s : State) :
  exists (b : bool) (new : list Effect),
    Index.speak config text w s
    = (inr b, {| trace := trace s ++ new;
                 lastProcessedMessageId := lastProcessedMessageId s |})
    /\ Forall (speak_effect (Index.canSpeakRequest config)
                 (Index.speakRequest config text) (Index.fallbackCommand config text)) new.
Proof.
  unfold Index.speak, Index.canSpeak. run.
  repeat split_goal; finish_frame.
Qed.

Lemma Capture_speak_frame (config : Capture.TTSConfig) (text : jsstring) (w : World) (s : State) :
  exists (b : bool) (new : list Effect),
    Capture.speak config text w s
    = (inr b, {| trace := trace s ++ new;
                 lastProcessedMessageId := lastProcessedMessageId s |})
    /\ Forall (speak_effect (Capture.canSpeakRequest config)
                 (Capture.speakRequest config text) (Capture.fallbackCommand config text)) new.
Proof.
  unfold Capture.speak, Capture.canSpeak. run.
  repeat split_goal; finish_frame.
Qed.

Lemma speak_effects_quiet (query primary : Request) (fallback : Command) (new : list Effect) :
  stderr_null fallback = false ->
  Forall (speak_effect query primary fallback) new ->
  filter to_store new = [] /\ filter is_assignment new = [] /\ observed new = [].
Proof.
  intros Hfb Hall. induction Hall as [|e new He _ IH]; [now repeat split|].
  destruct IH as (IH1 & IH2 & IH3).
  destruct He as [(out & ->) | [(out & ->) | [(res & ->) | (level & what & ->)]]];
    cbn; rewrite ?Hfb; auto.
Qed.

Lemma state_eta (s : State) :
  {| trace := trace s; lastProcessedMessageId := lastProcessedMessageId s |} = s.
Proof. now destruct s. Qed.

Lemma differs_false (i : jsstring) (marker : option jsstring) :
  Capture.differs i marker = false <-> marker = Some i.
Proof.
  unfold Capture.differs. destruct marker as [last|].
  - rewrite negb_false_iff, eqb_eq. split; congruence.
  - split; discriminate.
Qed.

Lemma differs_true (i : jsstring) (marker : option jsstring) :
  Capture.differs i marker = true -> marker <> Some i.
Proof.
  intros H Heq. apply differs_false in Heq. congruence.
Qed.

Lemma event_steps (config : Capture.TTSConfig) (input : Capture.PluginInput)
    (ev : Capture.Event) :
  Capture.event config input ev = (announce_step config ev ;; capture_step config input ev).
Proof. reflexivity. Qed.

Lemma announce_step_run (config : Capture.TTSConfig) (ev : Capture.Event)
    (w : World) (s : State) :
  exists pre : list Effect,
    announce_step config ev w s
    = (inr tt, {| trace := trace s ++ pre;
                  lastProcessedMessageId := lastProcessedMessageId s |})
    /\ Forall (speak_effect (Capture.canSpeakRequest config)
                 (Capture.speakRequest config (Capture.idleMessage config))
                 (Capture.fallbackCommand config (Capture.idleMessage config))) pre
    /\ (JsString.eqb (Capture.type ev) (js "session.idle") = false -> pre = [])
    /\ (JsString.eqb (Capture.type ev) (js "session.idle") = true ->
        Capture.announceOnIdle config = true ->
        exists b,
          Capture.speak config (Capture.idleMessage config) w s
          = (inr b, {| trace := trace s ++ pre;
                       lastProcessedMessageId := lastProcessedMessageId s |})).
Proof.
  unfold announce_step.
  destruct (JsString.eqb (Capture.type ev) (js "session.idle")) eqn:Htype;
    [destruct (Capture.announceOnIdle config) eqn:Hon|]; cbn [andb].
  - destruct (Capture_speak_frame config (Capture.idleMessage config) w s)
      as (b & pre & Hrun & Hpre).
    exists pre. rewrite bind_run, Hrun. repeat split; eauto. discriminate.
  - exists []. rewrite app_nil_r, state_eta. repeat split; auto; discriminate.
  - exists []. rewrite app_nil_r, state_eta. repeat split; auto; discriminate.
Qed.

Lemma capture_step_run (config : Capture.TTSConfig) (input : Capture.PluginInput)
    (ev : Capture.Event) (w : World) (s : State) :
  exists (post : list Effect) (s' : State),
    capture_step config input ev w s = (inr tt, s')
    /\ trace s' = trace s ++ post
    /\ capture_outcome (lastProcessedMessageId s) post (lastProcessedMessageId s')
    /\ (JsString.eqb (Capture.type ev) (js "session.idle") = false -> post = [])
    /\ (Capture.storeAiResponses config = false -> post = []).
Proof.
  unfold capture_step.
  destruct (JsString.eqb (Capture.type ev) (js "session.idle")) eqn:Htype;
    [destruct (Capture.storeAiResponses config) eqn:Hon|]; cbn [andb].
  2, 3: exists [], s; rewrite app_nil_r; repeat split; auto using capture_skipped; discriminate.
  destruct (Capture.client input) as [client|].
  2: exists [], s; rewrite app_nil_r; repeat split; auto using capture_skipped; discriminate.
  unfold Capture.storeAiResponse. rewrite Hon. cbn [negb orb]. run.
  destruct (messages_reply client (trace s) _) as [e|r] eqn:Hreply.
  { eexists _, _; split; [reflexivity|]; cbn [trace lastProcessedMessageId].
    split; [reflexivity|]. split; [constructor|]. split; discriminate. }
  destruct (find _ _) as [m|] eqn:Hfind.
  2: { eexists _, _; split; [reflexivity|]; cbn [trace lastProcessedMessageId].
       split; [reflexivity|]. split; [|split; discriminate].
       constructor. unfold newest_assistant. now rewrite Hfind. }
  assert (Hnewest : newest_assistant r = Some (id (info m)))
    by (unfold newest_assistant; now rewrite Hfind).
  cbn [trace lastProcessedMessageId].
  destruct (Capture.differs (id (info m)) (lastProcessedMessageId s)) eqn:Hdiff.
  2: { eexists _, _; split; [reflexivity|]; cbn [trace lastProcessedMessageId].
       split; [reflexivity|]. split; [|split; discriminate].
       apply differs_false in Hdiff. eapply capture_seen; eauto. }
  apply differs_true in Hdiff.
  repeat split_goal;
    repeat match goal with u : unit |- _ => destruct u end;
    eexists _, _; (split; [reflexivity|]);
    cbn [trace lastProcessedMessageId]; rewrite <- ?app_assoc;
    (split; [reflexivity|]); (split; [|split; discriminate]);
    cbn [app]; eauto using capture_new_without_text, capture_new_stored.
Qed.

Lemma Capture_event_run (config : Capture.TTSConfig) (input : Capture.PluginInput)
    (ev : Capture.Event) (w : World) (s : State) :
  exists (pre post : list Effect) (s' : State),
    Capture.event config input ev w s = (inr tt, s')
    /\ trace s' = trace s ++ pre ++ post
    /\ Forall (speak_effect (Capture.canSpeakRequest config)
                 (Capture.speakRequest config (Capture.idleMessage config))
                 (Capture.fallbackCommand config (Capture.idleMessage config))) pre
    /\ capture_outcome (lastProcessedMessageId s) post (lastProcessedMessageId s').
Proof.
  destruct (announce_step_run config ev w s) as (pre & Hpre & Hquiet & _).
  destruct (capture_step_run config input ev w
              {| trace := trace s ++ pre;
                 lastProcessedMessageId := lastProcessedMessageId s |})
    as (post & s' & Hpost & Htrace & Hout & _).
  exists pre, post, s'. rewrite event_steps, bind_run, Hpre.
  cbn [trace lastProcessedMessageId] in *.
  rewrite app_assoc. auto.
Qed.

Lemma observed_app (a b : list Effect) : observed (a ++ b) = observed a ++ observed b.
Proof. apply flat_map_app. Qed.

(** What one run of the handler shows, by what its session fetch yielded. *)
Lemma capture_outcome_cases (marker : option jsstring) (post : list Effect)
    (marker' : option jsstring) :
  capture_outcome marker post marker' ->
  match observed post with
  | [Some i] =>
    (marker = Some i /\ marker' = marker
     /\ filter is_assignment post = [] /\ filter to_store post = [])
    \/ (marker <> Some i /\ marker' = Some i
        /\ filter is_assignment post = [Assigned i]
        /\ (List.length (filter to_store post) <= 1)%nat)
  | _ =>
    marker' = marker /\ filter is_assignment post = [] /\ filter to_store post = []
  end.
Proof.
  intros H. destruct H; cbn [observed flat_map app];
    rewrite ?H; cbn; rewrite ?H1; cbn; auto 10.
Qed.

Lemma Capture_event_summary (config : Capture.TTSConfig) (input : Capture.PluginInput)
    (ev : Capture.Event) (w : World) (s s' : State) (r : Exn + unit) (new : list Effect) :
  Capture.event config input ev w s = (r, s') ->
  trace s' = trace s ++ new ->
  r = inr tt
  /\ match observed new with
     | [Some i] =>
       (lastProcessedMessageId s = Some i
        /\ lastProcessedMessageId s' = lastProcessedMessageId s
        /\ filter is_assignment new = [] /\ filter to_store new = [])
       \/ (lastProcessedMessageId s <> Some i /\ lastProcessedMessageId s' = Some i
           /\ filter is_assignment new = [Assigned i]
           /\ (List.length (filter to_store new) <= 1)%nat)
     | _ =>
       lastProcessedMessageId s' = lastProcessedMessageId s
       /\ filter is_assignment new = [] /\ filter to_store new = []
     end.
Proof.
  intros Hrun Htrace.
  destruct (Capture_event_run config input ev w s)
    as (pre & post & s'' & Hrun' & Htrace' & Hpre & Hout).
  rewrite Hrun in Hrun'. injection Hrun' as -> <-.
  rewrite Htrace in Htrace'. apply app_inv_head in Htrace'. subst new.
  split; [reflexivity|].
  apply speak_effects_quiet in Hpre; [|reflexivity].
  destruct Hpre as (Hstore & Hassign & Hobs).
  rewrite observed_app, !filter_app, Hobs, Hstore, Hassign. cbn [app].
  now apply capture_outcome_cases.
Qed.

(** C5. De-duplication. For two consecutive events whose session data
    yields the same newest assistant message identifier [i], the two
    handler runs together write to the response store at most once, the
    second run writes nothing and assigns nothing, and the marker is [i]
    after each. For any single event: when the session data yields a
    newest assistant identifier different from the marker, the marker is
    assigned exactly once, to that identifier; when it yields the marker's
    identifier, no assistant message, or nothing, the marker is neither
    assigned nor changed. *)
Theorem idle_events_deduplicated :
  forall (config : Capture.TTSConfig) (input : Capture.PluginInput) (w : World),
    (forall (ev1 ev2 : Capture.Event) (s0 s1 s2 : State) (r1 r2 : Exn + unit)
            (new1 new2 : list Effect) (i : jsstring),
        Capture.event config input ev1 w s0 = (r1, s1) ->
        trace s1 = trace s0 ++ new1 ->
        Capture.event config input ev2 w s1 = (r2, s2) ->
        trace s2 = trace s1 ++ new2 ->
        observed new1 = [Some i] ->
        observed new2 = [Some i] ->
        (List.length (filter to_store (new1 ++ new2)) <= 1)%nat
        /\ filter to_store new2 = []
        /\ filter is_assignment new2 = []
        /\ lastProcessedMessageId s1 = Some i
        /\ lastProcessedMessageId s2 = Some i)
    /\ (forall (ev : Capture.Event) (s s' : State) (r : Exn + unit) (new : list Effect),
          Capture.event config input ev w s = (r, s') ->
          trace s' = trace s ++ new ->
          match observed new with
          | [Some i] =>
            if Capture.differs i (lastProcessedMessageId s)
            then filter is_assignment new = [Assigned i]
                 /\ lastProcessedMessageId s' = Some i
            else filter is_assignment new = []
                 /\ lastProcessedMessageId s' = lastProcessedMessageId s
          | _ =>
            filter is_assignment new = []
            /\ lastProcessedMessageId s' = lastProcessedMessageId s
          end).
Proof.
  intros config input w. split.
  - intros ev1 ev2 s0 s1 s2 r1 r2 new1 new2 i Hrun1 Htrace1 Hrun2 Htrace2 Hobs1 Hobs2.
    destruct (@Capture_event_summary _ _ _ _ _ _ _ _ Hrun1 Htrace1) as (_ & H1).
    destruct (@Capture_event_summary _ _ _ _ _ _ _ _ Hrun2 Htrace2) as (_ & H2).
    rewrite Hobs1 in H1. rewrite Hobs2 in H2.
    assert (Hmarker : lastProcessedMessageId s1 = Some i)
      by (destruct H1 as [(Hm & -> & _) | (_ & Hm & _)]; assumption).
    destruct H2 as [(_ & Hkeep & Hassign & Hstore) | (Hne & _)]; [|contradiction].
    rewrite filter_app, Hstore, app_nil_r.
    repeat split; try congruence.
    destruct H1 as [(_ & _ & _ & ->) | (_ & _ & _ & Hle)]; [cbn; lia | exact Hle].
  - intros ev s s' r new Hrun Htrace.
    destruct (@Capture_event_summary _ _ _ _ _ _ _ _ Hrun Htrace) as (_ & H).
    destruct (observed new) as [|[i|] [|]]; try tauto.
    destruct (Capture.differs i (lastProcessedMessageId s)) eqn:Hdiff.
    + apply differs_true in Hdiff. destruct H as [(Hm & _) | (_ & Hm & Ha & _)]; [contradiction|auto].
    + apply differs_false in Hdiff. destruct H as [(_ & Hm & Ha & _) | (Hne & _)]; [auto|contradiction].
Qed.

Lemma idle_events_deduplicated_witness :
  let w := fixed_world unlocked accepted (inr tt) (inr tt) in
  let ev := idle (js "ses_1") in
  let s1 := snd (Capture.event capturing steady_host ev w initial) in
  let s2 := snd (Capture.event capturing steady_host ev w s1) in
  let new1 := trace s1 in
  let new2 := skipn (List.length new1) (trace s2) in
  (List.length (filter to_store (new1 ++ new2)) <= 1)%nat
  /\ filter to_store new2 = []
  /\ filter is_assignment new2 = []
  /\ lastProcessedMessageId s1 = Some (js "msg_a")
  /\ lastProcessedMessageId s2 = Some (js "msg_a").
Proof.
  intros w ev s1 s2 new1 new2.
  apply (proj1 (idle_events_deduplicated capturing steady_host w)
           ev ev initial s1 s2 (inr tt) (inr tt) new1 new2 (js "msg_a"));
    vm_compute; reflexivity.
Defined.

(* ================================================================== *)
(** ** Later events *)

Lemma handed_without_assignment (tr : list Effect) :
  filter is_assignment tr = [] -> handed tr = [].
Proof.
  induction tr as [|e tr IH]; [reflexivity|].
  destruct e; cbn [filter is_assignment handed]; auto; discriminate.
Qed.

(** While no other newest assistant message shows up, nothing is stored
    and the marker stays. *)
Lemma events_run (config : Capture.TTSConfig) (input : Capture.PluginInput)
    (w : World) (evs : list Capture.Event) :
  forall s : State,
    exists (s' : State) (tail : list Effect),
      events config input evs w s = (inr tt, s')
      /\ trace s' = trace s ++ tail
      /\ forall i,
          lastProcessedMessageId s = Some i ->
          (forall j, In (Some j) (observed tail) -> j = i) ->
          filter to_store tail = []
          /\ filter is_assignment tail = []
          /\ lastProcessedMessageId s' = Some i.
Proof.
  induction evs as [|ev rest IH]; intros s.
  - exists s, []. cbn. rewrite app_nil_r. auto.
  - cbn [events]. rewrite bind_run.
    destruct (Capture.event config input ev w s) as [r s1] eqn:Hrun.
    destruct (Capture_event_run config input ev w s)
      as (pre & post & s1' & Hrun' & Htrace1 & _).
    rewrite Hrun in Hrun'. injection Hrun' as -> <-.
    rewrite app_assoc in Htrace1. rewrite <- app_assoc in Htrace1.
    destruct (@Capture_event_summary _ _ _ _ _ _ _ _ Hrun Htrace1) as (_ & Hsum).
    destruct (IH s1) as (s2 & tail & Hrest & Htrace2 & Hkeep).
    exists s2, ((pre ++ post) ++ tail). rewrite Hrest.
    split; [reflexivity|]. split; [rewrite Htrace2, Htrace1; now rewrite <- !app_assoc|].
    intros i Hmarker Hsame. rewrite observed_app in Hsame.
    assert (H1 : filter to_store (pre ++ post) = []
                 /\ filter is_assignment (pre ++ post) = []
                 /\ lastProcessedMessageId s1 = Some i).
    { destruct (observed (pre ++ post)) as [|[j|] [|]];
        try (destruct Hsum as (-> & -> & ->); auto).
      assert (j = i) by (apply Hsame; left; reflexivity). subst j.
      destruct Hsum as [(_ & -> & -> & ->) | (Hne & _)]; [auto|contradiction]. }
    destruct H1 as (Hs1 & Ha1 & Hm1).
    destruct (Hkeep i Hm1) as (Hs2 & Ha2 & Hm2).
    { intros j Hj. apply Hsame, in_or_app. now right. }
    rewrite (filter_app to_store (pre ++ post)), (filter_app is_assignment (pre ++ post)).
    rewrite Hs1, Ha1, Hs2, Ha2. auto.
Qed.

Lemma split_after_quiet (pre0 post0 pre post : list Effect) (e : Effect) :
  filter to_store pre0 = [] ->
  to_store e = true ->
  pre0 ++ post0 = pre ++ e :: post ->
  exists mid, pre = pre0 ++ mid /\ post0 = mid ++ e :: post.
Proof.
  revert pre. induction pre0 as [|a pre0 IH]; intros pre Hquiet He Heq.
  - exists pre. auto.
  - cbn in Hquiet. destruct (to_store a) eqn:Ha; [discriminate|].
    destruct pre as [|b pre]; cbn in Heq; injection Heq as -> Heq.
    + congruence.
    + destruct (IH pre Hquiet He Heq) as (mid & -> & ->). now exists mid.
Qed.

(** C6, as the claim states it, fails: with two sessions taking turns the
    message whose write failed is handed to the store a second time. *)
Lemma same_message_handed_again :
  ~ never_handed_again capturing two_session_host store_down.
Proof.
  intro H.
  pose (s1 := snd (Capture.event capturing two_session_host (idle (js "ses_1"))
                     store_down initial)).
  pose (s2 := snd (events capturing two_session_host
                     [idle (js "ses_2"); idle (js "ses_1")] store_down s1)).
  apply (H (idle (js "ses_1")) [idle (js "ses_2"); idle (js "ses_1")]
           initial s1 s2 (inr tt) (inr tt)
           [Listed (js "ses_1") (inr (session_of (js "msg_a") (js "A")))]
           (skipn 3 (trace s2)) (js "msg_a")
           (Capture.insertCommand capturing (js "A")) (ShellError 1));
    vm_compute; auto.
Qed.

(** C6, amended. The marker is assigned right after the newest assistant
    message is identified and right before the store is attempted, and it
    keeps the new identifier whatever the outcome of the write. After that,
    for as long as the later events' session data shows no other newest
    assistant message, the store is not written again and that identifier
    is not handed to it again. *)
Theorem marker_assigned_before_store_attempt :
  forall (config : Capture.TTSConfig) (input : Capture.PluginInput) (w : World)
         (ev : Capture.Event) (later : list Capture.Event)
         (s s1 s2 : State) (r1 r2 : Exn + unit)
         (pre post tail : list Effect) (cmd : Command) (out : Exn + unit),
    Capture.event config input ev w s = (r1, s1) ->
    trace s1 = trace s ++ pre ++ Ran cmd out :: post ->
    stderr_null cmd = true ->
    events config input later w s1 = (r2, s2) ->
    trace s2 = trace s1 ++ tail ->
    exists (i : jsstring) (pre' : list Effect) (sid : jsstring) (r : MessagesResponse),
      pre = pre' ++ [Listed sid (inr r); Assigned i]
      /\ newest_assistant r = Some i
      /\ post = []
      /\ lastProcessedMessageId s1 = Some i
      /\ ((forall j, In (Some j) (observed tail) -> j = i) ->
          filter to_store tail = []
          /\ ~ In i (handed tail)
          /\ lastProcessedMessageId s2 = Some i).
Proof.
  intros config input w ev later s s1 s2 r1 r2 pre post tail cmd out
         Hrun Htrace Hcmd Hlater Htail.
  destruct (Capture_event_run config input ev w s)
    as (pre0 & post0 & s1' & Hrun' & Htrace' & Hquiet & Hout).
  rewrite Hrun in Hrun'. injection Hrun' as -> <-.
  rewrite Htrace in Htrace'. apply app_inv_head in Htrace'.
  apply speak_effects_quiet in Hquiet; [|reflexivity].
  destruct Hquiet as (Hquiet & _).
  destruct (@split_after_quiet pre0 post0 pre post (Ran cmd out) Hquiet Hcmd (eq_sym Htrace'))
    as (mid & -> & Hmid).
  destruct (events_run config input w later s1) as (s2' & tail' & Hlater' & Htail' & Hkeep).
  rewrite Hlater in Hlater'. injection Hlater' as -> <-.
  rewrite Htail in Htail'. apply app_inv_head in Htail'. subst tail'.
  assert (Hshape : exists i sid r,
             mid = [Listed sid (inr r); Assigned i] /\ post = []
             /\ newest_assistant r = Some i /\ lastProcessedMessageId s1 = Some i).
  { destruct Hout;
      destruct mid as [|m1 [|m2 [|m3 mid]]]; cbn in Hmid;
      try discriminate Hmid; injection Hmid as <-; subst;
      try (now destruct mid); eauto 10.
    all: match goal with H : _ = ?l ++ _ :: _ |- _ => now destruct l end. }
  destruct Hshape as (i & sid & r & -> & -> & Hnewest & Hmarker).
  exists i, (pre0 ++ []), sid, r. rewrite app_nil_r.
  repeat split; auto.
  - destruct (Hkeep i Hmarker H) as (Hstore & _). exact Hstore.
  - destruct (Hkeep i Hmarker H) as (_ & Hassign & _).
    now rewrite (handed_without_assignment _ Hassign).
  - destruct (Hkeep i Hmarker H) as (_ & _ & Hm). exact Hm.
Qed.

Lemma marker_assigned_before_store_attempt_witness :
  let ev := idle (js "ses_1") in
  let s1 := snd (Capture.event capturing steady_host ev store_down initial) in
  let s2 := snd (events capturing steady_host [ev; ev] store_down s1) in
  let tail := skipn 3 (trace s2) in
  filter to_store tail = []
  /\ ~ In (js "msg_a") (handed tail)
  /\ lastProcessedMessageId s2 = Some (js "msg_a").
Proof.
  intros ev s1 s2 tail.
  destruct (@marker_assigned_before_store_attempt
              capturing steady_host store_down ev [ev; ev] initial s1 s2
              (inr tt) (inr tt)
              [Listed (js "ses_1") (inr (session_of (js "msg_a") (js "A")));
               Assigned (js "msg_a")]
              [] tail (Capture.insertCommand capturing (js "A")) (inl (ShellError 1))
              eq_refl eq_refl eq_refl eq_refl eq_refl)
    as (i & pre' & sid & r & _ & _ & _ & Hmarker & Hlater).
  vm_compute in Hmarker. injection Hmarker as <-.
  apply Hlater. intros j Hj. vm_compute in Hj.
  destruct Hj as [Hj | [Hj | []]]; injection Hj as <-; reflexivity.
Defined.

(* ================================================================== *)
(** ** Event dispatch *)

Lemma capture_outcome_no_delivery (marker : option jsstring) (post : list Effect)
    (marker' : option jsstring) :
  capture_outcome marker post marker' ->
  filter to_primary post = [] /\ filter to_fallback post = [].
Proof.
  intros H. destruct H; cbn; rewrite ?H1; auto.
Qed.

Lemma eqb_neq (a b : jsstring) : a <> b -> JsString.eqb a b = false.
Proof.
  intros H. destruct (JsString.eqb a b) eqn:E; [|reflexivity].
  apply eqb_eq in E. contradiction.
Qed.

(** C9. Event dispatch, in both revisions. On an event of type
    "session.idle" with idle announcements enabled the handler runs the
    delivery chain on the configured idle message: its effects begin with
    exactly those of [speak (idleMessage config)], so every delivery call
    carries that text, and what follows (the capturing revision's session
    capture) makes no delivery call. On an event of any other type the
    handler returns with the trace and the marker as they were. *)
Theorem event_dispatch :
  (forall (config : Index.TTSConfig) (ev : Index.Event) (w : World) (s : State),
      (Index.type ev = js "session.idle" ->
       Index.announceOnIdle config = true ->
       exists (b : bool) (s' : State) (new : list Effect),
         Index.speak config (Index.idleMessage config) w s = (inr b, s')
         /\ Index.event config ev w s = (inr tt, s')
         /\ trace s' = trace s ++ new
         /\ Forall (speak_effect (Index.canSpeakRequest config)
                      (Index.speakRequest config (Index.idleMessage config))
                      (Index.fallbackCommand config (Index.idleMessage config))) new)
      /\ (Index.type ev <> js "session.idle" ->
          Index.event config ev w s = (inr tt, s)))
  /\ (forall (config : Capture.TTSConfig) (input : Capture.PluginInput)
             (ev : Capture.Event) (w : World) (s : State),
        (Capture.type ev = js "session.idle" ->
         Capture.announceOnIdle config = true ->
         exists (b : bool) (s1 s' : State) (new post : list Effect),
           Capture.speak config (Capture.idleMessage config) w s = (inr b, s1)
           /\ trace s1 = trace s ++ new
           /\ Forall (speak_effect (Capture.canSpeakRequest config)
                        (Capture.speakRequest config (Capture.idleMessage config))
                        (Capture.fallbackCommand config (Capture.idleMessage config))) new
           /\ Capture.event config input ev w s = (inr tt, s')
           /\ trace s' = trace s1 ++ post
           /\ filter to_primary post = []
           /\ filter to_fallback post = [])
        /\ (Capture.type ev <> js "session.idle" ->
            Capture.event config input ev w s = (inr tt, s))).
Proof.
  split.
  - intros config ev w s. split.
    + intros Htype Hon. apply eqb_eq in Htype.
      destruct (Index_speak_frame config (Index.idleMessage config) w s)
        as (b & new & Hrun & Hnew).
      eexists b, _, new. split; [exact Hrun|].
      unfold Index.event. rewrite Htype, Hon. cbn [andb].
      rewrite bind_run, Hrun. auto.
    + intros Htype. apply eqb_neq in Htype.
      unfold Index.event. now rewrite Htype.
  - intros config input ev w s. split.
    + intros Htype Hon. apply eqb_eq in Htype.
      destruct (announce_step_run config ev w s) as (new & Hfirst & Hnew & _ & Hspeak).
      destruct (Hspeak Htype Hon) as (b & Hrun).
      destruct (capture_step_run config input ev w
                  {| trace := trace s ++ new;
                     lastProcessedMessageId := lastProcessedMessageId s |})
        as (post & s' & Hsecond & Htrace & Hout & _).
      eexists b, _, s', new, post. split; [exact Hrun|].
      rewrite event_steps, bind_run, Hfirst.
      apply capture_outcome_no_delivery in Hout. destruct Hout.
      repeat split; auto.
    + intros Htype. apply eqb_neq in Htype.
      unfold Capture.event. rewrite Htype. reflexivity.
Qed.

Lemma event_dispatch_witness :
  let w := fixed_world unlocked accepted (inr tt) (inr tt) in
  let ev := {| Index.type := js "session.idle" |} in
  exists (b : bool) (s' : State) (new : list Effect),
    Index.speak announcing (js "Úkol dokončen.") w initial = (inr b, s')
    /\ Index.event announcing ev w initial = (inr tt, s')
    /\ trace s' = trace initial ++ new
    /\ Forall (speak_effect (Index.canSpeakRequest announcing)
                 (Index.speakRequest announcing (js "Úkol dokončen."))
                 (Index.fallbackCommand announcing (js "Úkol dokončen."))) new.
Proof.
  exact (proj1 (proj1 event_dispatch announcing {| Index.type := js "session.idle" |}
                  (fixed_world unlocked accepted (inr tt) (inr tt)) initial)
           eq_refl eq_refl).
Defined.

(* ================================================================== *)
(** ** The oldest revision and the lock gate in front of it *)

(** X1. The lock gate is a prefix. Once [canSpeak] has let a call through,
    [speak] of [src/index.ts] goes on exactly as the oldest revision's
    [speak] does from the state the lock query left: same answer, same
    effects, same final state. *)
Theorem gated_speak_is_query_then_ungated_speak :
  forall (config : Index.TTSConfig) (text : jsstring) (w : World)
         (s s1 : State) (allowed : JsValue),
    Index.canSpeak config w s = (inr allowed, s1) ->
    Js.truthy allowed = true ->
    Index.speak config text w s = Ungated.speak (ungate config) text w s1.
Proof.
  intros config text w s s1 allowed Hlock Hopen.
  unfold Index.speak. rewrite bind_run, Hlock, Hopen. reflexivity.
Qed.

Lemma gated_speak_is_query_then_ungated_speak_witness :
  let w := fixed_world unlocked server_error (inl (ShellError 2)) (inr tt) in
  Index.speak Index.defaultConfig (js "Hotovo.") w initial
  = Ungated.speak (ungate Index.defaultConfig) (js "Hotovo.") w
      (after_lock_query Index.defaultConfig unlocked).
Proof.
  exact (@gated_speak_is_query_then_ungated_speak Index.defaultConfig (js "Hotovo.")
           (fixed_world unlocked server_error (inl (ShellError 2)) (inr tt))
           initial (after_lock_query Index.defaultConfig unlocked) (JBool true)
           eq_refl eq_refl).
Defined.

Lemma Ungated_speak_run (config : Ungated.TTSConfig) (text : jsstring)
    (w : World) (s : State) :
  let primary :=
    {| req_url := Ungated.apiUrl config;
       req_method := POST;
       req_headers := [(js "Content-Type", js "application/json")];
       req_body := Some (JObject [(js "text", JString text)]);
       req_timeout := None |} in
  let fallback :=
    {| argv := [Ungated.fallbackScript config; text]; stderr_null := false |} in
  let out := fetch_reply w (trace s) primary in
  let note := match out with
              | inl e => ApiUnavailable e
              | inr response => ApiReturned (resp_status response)
              end in
  let res := shell_reply w (trace s ++ [Fetched primary out; Printed Warn note]) fallback in
  exists (b : bool) (s' : State) (new : list Effect),
    Ungated.speak config text w s = (inr b, s')
    /\ trace s' = trace s ++ new
    /\ lastProcessedMessageId s' = lastProcessedMessageId s
    /\ if delivered out
       then b = true /\ filter is_call new = [Fetched primary out]
       else filter is_call new = [Fetched primary out; Ran fallback res]
            /\ (b = true <-> res = inr tt).
Proof.
  intros primary fallback out note res. subst primary fallback out note res.
  unfold Ungated.speak, Ungated.speakRequest, Ungated.fallbackCommand, delivered. run.
  repeat (rewrite <- ?app_assoc; cbn [app]; split_goal).
  all: repeat match goal with u : unit |- _ => destruct u end;
    eexists _, _, _; (split; [reflexivity|]);
    cbn [trace lastProcessedMessageId]; rewrite <- ?app_assoc;
    (split; [reflexivity|]); (split; [reflexivity|]); cbn;
    split; [reflexivity|]; try reflexivity; split; congruence.
Qed.

(** X2. The oldest revision's [speak], completely. It never throws and
    never asks the lock endpoint: its first call is always the POST to
    [apiUrl], with the JSON content type, whose body is the object with
    the single property "text" holding [text] itself. When the world
    answers that request with a 2xx response, [speak] returns [true] after
    that one call. Otherwise exactly one command follows, [fallbackScript]
    with [text] unmodified as its one argument, and [speak] returns [true]
    exactly when the world lets that command exit normally. The marker is
    left alone. *)
Theorem ungated_speak_contract :
  forall (config : Ungated.TTSConfig) (text : jsstring) (w : World) (s : State),
    let primary :=
      {| req_url := Ungated.apiUrl config;
         req_method := POST;
         req_headers := [(js "Content-Type", js "application/json")];
         req_body := Some (JObject [(js "text", JString text)]);
         req_timeout := None |} in
    let fallback :=
      {| argv := [Ungated.fallbackScript config; text]; stderr_null := false |} in
    let out := fetch_reply w (trace s) primary in
    let note := match out with
                | inl e => ApiUnavailable e
                | inr response => ApiReturned (resp_status response)
                end in
    let res := shell_reply w (trace s ++ [Fetched primary out; Printed Warn note]) fallback in
    exists (b : bool) (s' : State) (new : list Effect),
      Ungated.speak config text w s = (inr b, s')
      /\ trace s' = trace s ++ new
      /\ lastProcessedMessageId s' = lastProcessedMessageId s
      /\ if delivered out
         then b = true /\ filter is_call new = [Fetched primary out]
         else filter is_call new = [Fetched primary out; Ran fallback res]
              /\ (b = true <-> res = inr tt).
Proof.
  intros config text w s. apply Ungated_speak_run.
Qed.

(* ================================================================== *)
(** ** The speak tool *)

Lemma confirmation_differs (t t' : jsstring) :
  js "„" ++ t ++ JsString.quote <> js "[TTS error] „" ++ t' ++ JsString.quote.
Proof. intro H. cbv in H. discriminate H. Qed.

Lemma old_confirmation_differs (t t' : jsstring) :
  js "Spoken: " ++ JsString.quote ++ t ++ JsString.quote
  <> js "Failed to speak: " ++ JsString.quote ++ t' ++ JsString.quote.
Proof. intro H. cbv in H. discriminate H. Qed.

Lemma Ungated_boolean_outcome (config : Ungated.TTSConfig) :
  boolean_outcome (Ungated.speak config)
    (Ungated.speakRequest config) (Ungated.fallbackCommand config).
Proof.
  intros text w s.
  unfold Ungated.speak. run.
  repeat split_goal; finish_outcome.
Qed.

(** X3. What the speak tool tells the assistant, in all three revisions.
    [execute] never throws. Its result is the text framed as a
    confirmation, or the same frame behind a failure mark, and it is the
    failure-marked one exactly when the request to the primary channel
    failed and the run of the fallback executable failed as well; in
    particular a call silenced by the lock gate is confirmed like a spoken
    one. *)
Theorem execute_reports_outcome :
  (forall (config : Index.TTSConfig) (args : Index.Args) (w : World) (s : State),
      exists (result : jsstring) (s' : State) (new : list Effect),
        Index.execute config args w s = (inr result, s')
        /\ trace s' = trace s ++ new
        /\ (result = js "„" ++ Index.text args ++ JsString.quote
            \/ result = js "[TTS error] „" ++ Index.text args ++ JsString.quote)
        /\ (result = js "[TTS error] „" ++ Index.text args ++ JsString.quote <->
            exists out e,
              In (Fetched (Index.speakRequest config (Index.text args)) out) new
              /\ delivered out = false
              /\ In (Ran (Index.fallbackCommand config (Index.text args)) (inl e)) new))
  /\ (forall (config : Capture.TTSConfig) (args : Capture.Args) (w : World) (s : State),
        exists (result : jsstring) (s' : State) (new : list Effect),
          Capture.execute config args w s = (inr result, s')
          /\ trace s' = trace s ++ new
          /\ (result = js "„" ++ Capture.text args ++ JsString.quote
              \/ result = js "[TTS error] „" ++ Capture.text args ++ JsString.quote)
          /\ (result = js "[TTS error] „" ++ Capture.text args ++ JsString.quote <->
              exists out e,
                In (Fetched (Capture.speakRequest config (Capture.text args)) out) new
                /\ delivered out = false
                /\ In (Ran (Capture.fallbackCommand config (Capture.text args)) (inl e)) new))
  /\ (forall (config : Ungated.TTSConfig) (args : Ungated.Args) (w : World) (s : State),
        exists (result : jsstring) (s' : State) (new : list Effect),
          Ungated.execute config args w s = (inr result, s')
          /\ trace s' = trace s ++ new
          /\ (result = js "Spoken: " ++ JsString.quote ++ Ungated.text args ++ JsString.quote
              \/ result = js "Failed to speak: " ++ JsString.quote
                          ++ Ungated.text args ++ JsString.quote)
          /\ (result = js "Failed to speak: " ++ JsString.quote
                       ++ Ungated.text args ++ JsString.quote <->
              exists out e,
                In (Fetched (Ungated.speakRequest config (Ungated.text args)) out) new
                /\ delivered out = false
                /\ In (Ran (Ungated.fallbackCommand config (Ungated.text args)) (inl e)) new)).
Proof.
  split; [|split]; intros config args w s.
  - destruct (Index_boolean_outcome config (Index.text args) w s)
      as (b & s' & new & Hrun & Htrace & Hfalse).
    unfold Index.execute. rewrite bind_run, Hrun.
    destruct b; eexists _, s', new; (split; [reflexivity|]); (split; [exact Htrace|]).
    + split; [now left|]. split.
      * intros H. now apply confirmation_differs in H.
      * intros H. apply Hfalse in H. discriminate H.
    + split; [now right|]. split; [intros _; now apply Hfalse | reflexivity].
  - destruct (Capture_boolean_outcome config (Capture.text args) w s)
      as (b & s' & new & Hrun & Htrace & Hfalse).
    unfold Capture.execute. rewrite bind_run, Hrun.
    destruct b; eexists _, s', new; (split; [reflexivity|]); (split; [exact Htrace|]).
    + split; [now left|]. split.
      * intros H. now apply confirmation_differs in H.
      * intros H. apply Hfalse in H. discriminate H.
    + split; [now right|]. split; [intros _; now apply Hfalse | reflexivity].
  - destruct (Ungated_boolean_outcome config (Ungated.text args) w s)
      as (b & s' & new & Hrun & Htrace & Hfalse).
    unfold Ungated.execute. rewrite bind_run, Hrun.
    destruct b; eexists _, s', new; (split; [reflexivity|]); (split; [exact Htrace|]).
    + split; [now left|]. split.
      * intros H. now apply old_confirmation_differs in H.
      * intros H. apply Hfalse in H. discriminate H.
    + split; [now right|]. split; [intros _; now apply Hfalse | reflexivity].
Qed.

Lemma Ungated_speak_frame (config : Ungated.TTSConfig) (text : jsstring)
    (w : World) (s : State) :
  exists (b : bool) (new : list Effect),
    Ungated.speak config text w s
    = (inr b, {| trace := trace s ++ new;
                 lastProcessedMessageId := lastProcessedMessageId s |})
    /\ Forall (fun e => is_assignment e = false /\ to_store e = false) new.
Proof.
  unfold Ungated.speak. run.
  repeat split_goal;
    eexists _, _; (split;
      [ cbn [trace lastProcessedMessageId]; rewrite <- ?app_assoc; reflexivity
      | cbn [app]; repeat apply Forall_cons; try apply Forall_nil; now split ]).
Qed.

Ltac same_result Hrun1 Hrun2 b1 b2 :=
  let E1 := fresh "E" in
  let E2 := fresh "E" in
  destruct b1, b2; cbn in Hrun1, Hrun2;
  injection Hrun1 as E1 <-; injection Hrun2 as E2 <-;
  rewrite <- E2 in E1;
  first [ discriminate E1
        | repeat (injection E1 as E1); apply app_inv_tail in E1;
          (split; [exact E1|]); eexists; split; reflexivity ].

(** X4. The tool's result is a faithful signal, in all three revisions:
    two calls of [execute] that return the same string were given the same
    text and had the same outcome of [speak]. *)
Theorem execute_result_identifies_call :
  (forall (config : Index.TTSConfig) (a1 a2 : Index.Args) (w1 w2 : World)
          (s1 s2 s1' s2' : State) (result : jsstring),
      Index.execute config a1 w1 s1 = (inr result, s1') ->
      Index.execute config a2 w2 s2 = (inr result, s2') ->
      Index.text a1 = Index.text a2
      /\ exists b : bool,
           Index.speak config (Index.text a1) w1 s1 = (inr b, s1')
           /\ Index.speak config (Index.text a2) w2 s2 = (inr b, s2'))
  /\ (forall (config : Capture.TTSConfig) (a1 a2 : Capture.Args) (w1 w2 : World)
             (s1 s2 s1' s2' : State) (result : jsstring),
        Capture.execute config a1 w1 s1 = (inr result, s1') ->
        Capture.execute config a2 w2 s2 = (inr result, s2') ->
        Capture.text a1 = Capture.text a2
        /\ exists b : bool,
             Capture.speak config (Capture.text a1) w1 s1 = (inr b, s1')
             /\ Capture.speak config (Capture.text a2) w2 s2 = (inr b, s2'))
  /\ (forall (config : Ungated.TTSConfig) (a1 a2 : Ungated.Args) (w1 w2 : World)
             (s1 s2 s1' s2' : State) (result : jsstring),
        Ungated.execute config a1 w1 s1 = (inr result, s1') ->
        Ungated.execute config a2 w2 s2 = (inr result, s2') ->
        Ungated.text a1 = Ungated.text a2
        /\ exists b : bool,
             Ungated.speak config (Ungated.text a1) w1 s1 = (inr b, s1')
             /\ Ungated.speak config (Ungated.text a2) w2 s2 = (inr b, s2')).
Proof.
  split; [|split];
    intros config a1 a2 w1 w2 s1 s2 s1' s2' result Hrun1 Hrun2.
  - destruct (Index_speak_frame config (Index.text a1) w1 s1) as (b1 & n1 & Hs1 & _).
    destruct (Index_speak_frame config (Index.text a2) w2 s2) as (b2 & n2 & Hs2 & _).
    unfold Index.execute in Hrun1, Hrun2.
    rewrite bind_run, Hs1 in Hrun1. rewrite bind_run, Hs2 in Hrun2.
    rewrite Hs1, Hs2. unfold ret in Hrun1, Hrun2.
    same_result Hrun1 Hrun2 b1 b2.
  - destruct (Capture_speak_frame config (Capture.text a1) w1 s1) as (b1 & n1 & Hs1 & _).
    destruct (Capture_speak_frame config (Capture.text a2) w2 s2) as (b2 & n2 & Hs2 & _).
    unfold Capture.execute in Hrun1, Hrun2.
    rewrite bind_run, Hs1 in Hrun1. rewrite bind_run, Hs2 in Hrun2.
    rewrite Hs1, Hs2. unfold ret in Hrun1, Hrun2.
    same_result Hrun1 Hrun2 b1 b2.
  - destruct (Ungated_speak_frame config (Ungated.text a1) w1 s1) as (b1 & n1 & Hs1 & _).
    destruct (Ungated_speak_frame config (Ungated.text a2) w2 s2) as (b2 & n2 & Hs2 & _).
    unfold Ungated.execute in Hrun1, Hrun2.
    rewrite bind_run, Hs1 in Hrun1. rewrite bind_run, Hs2 in Hrun2.
    rewrite Hs1, Hs2. unfold ret in Hrun1, Hrun2.
    same_result Hrun1 Hrun2 b1 b2.
Qed.

Lemma execute_result_identifies_call_witness :
  let args := {| Index.text := js "Hotovo." |} in
  let w1 := fixed_world unlocked accepted (inr tt) (inr tt) in
  let w2 := fixed_world locked server_error (inl (ShellError 1)) (inr tt) in
  let s1' := snd (Index.execute Index.defaultConfig args w1 initial) in
  let s2' := snd (Index.execute Index.defaultConfig args w2 initial) in
  Index.text args = Index.text args
  /\ exists b : bool,
       Index.speak Index.defaultConfig (Index.text args) w1 initial = (inr b, s1')
       /\ Index.speak Index.defaultConfig (Index.text args) w2 initial = (inr b, s2').
Proof.
  intros args w1 w2 s1' s2'.
  apply (proj1 execute_result_identifies_call Index.defaultConfig args args w1 w2
           initial initial s1' s2' (js "„Hotovo." ++ JsString.quote));
    vm_compute; reflexivity.
Defined.

(* ================================================================== *)
(** ** The handlers as the host sees them *)

Lemma events_total (config : Capture.TTSConfig) (input : Capture.PluginInput)
    (w : World) (evs : list Capture.Event) (s : State) :
  exists s' : State, events config input evs w s = (inr tt, s').
Proof.
  destruct (events_run config input w evs s) as (s' & tail & Hrun & _).
  now exists s'.
Qed.

(** X5. Nothing reaches the host. In every revision the event handler
    returns normally for every event, world and state, whatever the lock
    endpoint, the primary channel, the fallback executable, the session
    client or the store do; so does a whole sequence of events. *)
Theorem handlers_never_throw :
  (forall (config : Index.TTSConfig) (ev : Index.Event) (w : World) (s : State),
      exists s' : State, Index.event config ev w s = (inr tt, s'))
  /\ (forall (config : Capture.TTSConfig) (input : Capture.PluginInput)
             (ev : Capture.Event) (w : World) (s : State),
        exists s' : State, Capture.event config input ev w s = (inr tt, s'))
  /\ (forall (config : Ungated.TTSConfig) (ev : Ungated.Event) (w : World) (s : State),
        exists s' : State, Ungated.event config ev w s = (inr tt, s'))
  /\ (forall (config : Capture.TTSConfig) (input : Capture.PluginInput)
             (evs : list Capture.Event) (w : World) (s : State),
        exists s' : State, events config input evs w s = (inr tt, s')).
Proof.
  repeat split.
  - intros config ev w s. unfold Index.event.
    destruct (JsString.eqb _ _ && _); [|now exists s].
    destruct (Index_speak_frame config (Index.idleMessage config) w s) as (b & new & Hrun & _).
    rewrite bind_run, Hrun. eexists; reflexivity.
  - intros config input ev w s.
    destruct (Capture_event_run config input ev w s) as (pre & post & s' & Hrun & _).
    now exists s'.
  - intros config ev w s. unfold Ungated.event.
    destruct (JsString.eqb _ _ && _); [|now exists s].
    destruct (Ungated_speak_frame config (Ungated.idleMessage config) w s) as (b & new & Hrun & _).
    rewrite bind_run, Hrun. eexists; reflexivity.
  - intros config input evs w s. apply events_total.
Qed.

Lemma not_true_string (v : option jsstring) :
  v <> Some (js "true") -> is_true_string v = false.
Proof.
  intros H. destruct v as [x|]; [|reflexivity].
  unfold is_true_string. apply eqb_neq. intros E. apply H. now rewrite E.
Qed.

(** X6. Off by default. Unless the environment sets
    OPENCODE_TTS_ANNOUNCE_IDLE to exactly "true", the handlers of
    [src/index.ts] and of the oldest revision do nothing for any event;
    and unless OPENCODE_STORE_AI_RESPONSES is exactly "true" as well, the
    capturing handler does nothing either: no call, no assignment, state
    as it was. *)
Theorem handlers_off_by_default :
  forall env : Env,
    env (js "OPENCODE_TTS_ANNOUNCE_IDLE") <> Some (js "true") ->
    (forall ev w s, Index.event (Index.loadConfig env) ev w s = (inr tt, s))
    /\ (forall ev w s, Ungated.event (Ungated.loadConfig env) ev w s = (inr tt, s))
    /\ (env (js "OPENCODE_STORE_AI_RESPONSES") <> Some (js "true") ->
        forall input ev w s,
          Capture.event (Capture.loadConfig env) input ev w s = (inr tt, s)).
Proof.
  intros env Hannounce. apply not_true_string in Hannounce.
  repeat split.
  - intros ev w s. unfold Index.event, Index.loadConfig. cbn [Index.announceOnIdle].
    now rewrite Hannounce, andb_false_r.
  - intros ev w s. unfold Ungated.event, Ungated.loadConfig. cbn [Ungated.announceOnIdle].
    now rewrite Hannounce, andb_false_r.
  - intros Hstore input ev w s. apply not_true_string in Hstore.
    unfold Capture.event, Capture.loadConfig.
    cbn [Capture.announceOnIdle Capture.storeAiResponses].
    now rewrite Hannounce, Hstore, !andb_false_r.
Qed.

Lemma handlers_off_by_default_witness :
  (forall ev w s, Index.event (Index.loadConfig no_env) ev w s = (inr tt, s))
  /\ (forall ev w s, Ungated.event (Ungated.loadConfig no_env) ev w s = (inr tt, s))
  /\ forall input ev w s,
       Capture.event (Capture.loadConfig no_env) input ev w s = (inr tt, s).
Proof.
  destruct (handlers_off_by_default no_env ltac:(discriminate)) as (H1 & H2 & H3).
  repeat split; [exact H1 | exact H2 | exact (H3 ltac:(discriminate))].
Defined.

(** X7. Capture switched off, or no session client: the capturing handler
    never asks the host for session data, never writes to the store and
    never assigns the marker, for any event. Whatever it does is the idle
    announcement. *)
Theorem capture_disabled_is_announcement_only :
  forall (config : Capture.TTSConfig) (input : Capture.PluginInput)
         (ev : Capture.Event) (w : World) (s : State),
    Capture.storeAiResponses config = false \/ Capture.client input = None ->
    exists (s' : State) (new : list Effect),
      Capture.event config input ev w s = (inr tt, s')
      /\ trace s' = trace s ++ new
      /\ lastProcessedMessageId s' = lastProcessedMessageId s
      /\ Forall (speak_effect (Capture.canSpeakRequest config)
                   (Capture.speakRequest config (Capture.idleMessage config))
                   (Capture.fallbackCommand config (Capture.idleMessage config))) new
      /\ observed new = [] /\ filter to_store new = [] /\ filter is_assignment new = [].
Proof.
  intros config input ev w s Hoff.
  destruct (announce_step_run config ev w s) as (new & Hrun & Hnew & _).
  eexists _, new. rewrite event_steps, bind_run, Hrun.
  assert (Hskip : forall s0, capture_step config input ev w s0 = (inr tt, s0)).
  { intros s0. unfold capture_step.
    destruct Hoff as [-> | ->]; [now rewrite andb_false_r|].
    now destruct (JsString.eqb _ _ && _). }
  rewrite Hskip. split; [reflexivity|]. cbn [trace lastProcessedMessageId].
  repeat split; auto; now apply speak_effects_quiet in Hnew.
Qed.

Lemma capture_disabled_is_announcement_only_witness :
  exists (s' : State) (new : list Effect),
    Capture.event Capture.defaultConfig steady_host (idle (js "ses_1")) store_down initial
    = (inr tt, s')
    /\ trace s' = trace initial ++ new
    /\ lastProcessedMessageId s' = lastProcessedMessageId initial
    /\ Forall (speak_effect (Capture.canSpeakRequest Capture.defaultConfig)
                 (Capture.speakRequest Capture.defaultConfig
                    (Capture.idleMessage Capture.defaultConfig))
                 (Capture.fallbackCommand Capture.defaultConfig
                    (Capture.idleMessage Capture.defaultConfig))) new
    /\ observed new = [] /\ filter to_store new = [] /\ filter is_assignment new = [].
Proof.
  exact (capture_disabled_is_announcement_only Capture.defaultConfig steady_host
           (idle (js "ses_1")) store_down initial (or_introl eq_refl)).
Defined.

(* ================================================================== *)
(** ** What the capture stores *)

Lemma capture_step_detail (config : Capture.TTSConfig) (input : Capture.PluginInput)
    (ev : Capture.Event) (w : World) (s : State) :
  exists (post : list Effect) (s' : State),
    capture_step config input ev w s = (inr tt, s')
    /\ trace s' = trace s ++ post
    /\ forall sid resp m,
        In (Listed sid (inr resp)) post ->
        find is_assistant (rev (match data resp with Some ms => ms | None => [] end))
        = Some m ->
        sid = Capture.sessionID (Capture.properties ev)
        /\ if Capture.differs (id (info m)) (lastProcessedMessageId s)
              && negb (whitespace_only (Capture.extractTextFromParts (parts m)))
           then exists out,
                  filter to_store post
                  = [Ran (Capture.insertCommand config
                            (JsString.doubleApostrophes
                               (Capture.extractTextFromParts (parts m)))) out]
           else filter to_store post = [].
Proof.
  unfold capture_step, is_assistant.
  destruct (JsString.eqb (Capture.type ev) (js "session.idle") && Capture.storeAiResponses config)
    eqn:Hon.
  2: { exists [], s. rewrite app_nil_r. split; [reflexivity|]. split; [reflexivity|].
       intros ? ? ? []. }
  apply andb_prop in Hon. destruct Hon as (_ & Hon).
  destruct (Capture.client input) as [client|].
  2: { exists [], s. rewrite app_nil_r. split; [reflexivity|]. split; [reflexivity|].
       intros ? ? ? []. }
  unfold Capture.storeAiResponse. rewrite Hon. cbn [negb orb]. run.
  destruct (messages_reply client (trace s) _) as [e|r] eqn:Hreply.
  { eexists _, _; split; [reflexivity|]; cbn [trace lastProcessedMessageId].
    split; [reflexivity|]. intros sid resp m [H|[]]. discriminate H. }
  destruct (find _ _) as [m0|] eqn:Hfind.
  2: { eexists _, _; split; [reflexivity|]; cbn [trace lastProcessedMessageId].
       split; [reflexivity|]. intros sid resp m [H|[]] Hm.
       injection H as <- <-. congruence. }
  cbn [trace lastProcessedMessageId].
  destruct (Capture.differs (id (info m0)) (lastProcessedMessageId s)) eqn:Hdiff.
  2: { eexists _, _; split; [reflexivity|]; cbn [trace lastProcessedMessageId].
       split; [reflexivity|]. intros sid resp m [H|[]] Hm.
       injection H as <- <-. rewrite Hfind in Hm. injection Hm as <-.
       now rewrite Hdiff. }
  rewrite trim_truthy, negb_involutive.
  destruct (Capture.extractTextFromParts (parts m0)) as [|c text] eqn:Htext.
  { cbn [JsString.truthy]. eexists _, _; split; [reflexivity|].
    cbn [trace lastProcessedMessageId]. rewrite <- app_assoc.
    split; [reflexivity|]. intros sid resp m [H|[H|[]]] Hm; [|discriminate H].
    injection H as <- <-. rewrite Hfind in Hm. injection Hm as <-.
    now rewrite Hdiff, Htext. }
  cbn [JsString.truthy].
  destruct (whitespace_only (c :: text)) eqn:Hws.
  { eexists _, _; split; [reflexivity|].
    cbn [trace lastProcessedMessageId]. rewrite <- app_assoc.
    split; [reflexivity|]. intros sid resp m [H|[H|[]]] Hm; [|discriminate H].
    injection H as <- <-. rewrite Hfind in Hm. injection Hm as <-.
    now rewrite Hdiff, Htext, Hws. }
  destruct (shell_reply w _ _) as [e|[]] eqn:Hshell;
    eexists _, _; (split; [reflexivity|]);
    cbn [trace lastProcessedMessageId]; rewrite <- !app_assoc;
    (split; [reflexivity|]);
    intros sid resp m [H|[H|[H|[]]]] Hm; try discriminate H;
    injection H as <- <-; rewrite Hfind in Hm; injection Hm as <-;
    rewrite Hdiff, Htext, Hws; (split; [reflexivity|]);
    cbn; eexists; reflexivity.
Qed.

Lemma speak_effects_list_nothing (query primary : Request) (fallback : Command)
    (new : list Effect) (sid : jsstring) (out : Exn + MessagesResponse) :
  Forall (speak_effect query primary fallback) new -> ~ In (Listed sid out) new.
Proof.
  intros Hall Hin. rewrite Forall_forall in Hall. apply Hall in Hin.
  destruct Hin as [(? & H) | [(? & H) | [(? & H) | (? & ? & H)]]]; discriminate H.
Qed.

(** X8. What one idle event stores. When the handler has fetched a
    session's messages and the list has an assistant message, the session
    asked for is the one named in the event, and the store is written in
    exactly one case: the newest assistant message's identifier differs
    from the marker and its joined text is not empty or whitespace. The
    one command then inserts that joined text, apostrophes doubled;
    in every other case the event writes nothing. *)
Theorem idle_event_stores_newest_answer :
  forall (config : Capture.TTSConfig) (input : Capture.PluginInput)
         (ev : Capture.Event) (w : World) (s s' : State) (r : Exn + unit)
         (new : list Effect) (sid : jsstring) (resp : MessagesResponse) (m : Message),
    Capture.event config input ev w s = (r, s') ->
    trace s' = trace s ++ new ->
    In (Listed sid (inr resp)) new ->
    find is_assistant (rev (match data resp with Some ms => ms | None => [] end)) = Some m ->
    sid = Capture.sessionID (Capture.properties ev)
    /\ if Capture.differs (id (info m)) (lastProcessedMessageId s)
          && negb (whitespace_only (Capture.extractTextFromParts (parts m)))
       then exists out,
              filter to_store new
              = [Ran (Capture.insertCommand config
                        (JsString.doubleApostrophes
                           (Capture.extractTextFromParts (parts m)))) out]
       else filter to_store new = [].
Proof.
  intros config input ev w s s' r new sid resp m Hrun Htrace Hin Hfind.
  destruct (announce_step_run config ev w s) as (pre & Hpre & Hquiet & _).
  destruct (capture_step_detail config input ev w
              {| trace := trace s ++ pre;
                 lastProcessedMessageId := lastProcessedMessageId s |})
    as (post & s'' & Hpost & Htrace' & Hdetail).
  rewrite event_steps, bind_run, Hpre, Hpost in Hrun. injection Hrun as <- <-.
  cbn [trace lastProcessedMessageId] in *.
  rewrite Htrace, <- app_assoc in Htrace'. apply app_inv_head in Htrace'. subst new.
  apply in_app_or in Hin. destruct Hin as [Hin|Hin].
  { exfalso. exact (@speak_effects_list_nothing _ _ _ _ _ _ Hquiet Hin). }
  destruct (Hdetail sid resp m Hin Hfind) as (Hsid & Hstore).
  split; [exact Hsid|].
  apply speak_effects_quiet in Hquiet; [|reflexivity]. destruct Hquiet as (Hq & _).
  now rewrite filter_app, Hq.
Qed.

Lemma idle_event_stores_newest_answer_witness :
  let ev := idle (js "ses_1") in
  let s' := snd (Capture.event capturing steady_host ev store_down initial) in
  js "ses_1" = Capture.sessionID (Capture.properties ev)
  /\ exists out,
       filter to_store (trace s')
       = [Ran (Capture.insertCommand capturing (JsString.doubleApostrophes (js "A"))) out].
Proof.
  intros ev s'.
  exact (@idle_event_stores_newest_answer capturing steady_host ev store_down
           initial s' (inr tt) (trace s') (js "ses_1") (session_of (js "msg_a") (js "A"))
           {| info := {| id := js "msg_a"; role := js "assistant" |};
              parts := [text_part (js "A")] |}
           eq_refl eq_refl (or_introl eq_refl) eq_refl).
Defined.

Lemma find_skips (A : Type) (f : A -> bool) (l1 l2 : list A) :
  forallb (fun x => negb (f x)) l1 = true -> find f (l1 ++ l2) = find f l2.
Proof.
  induction l1 as [|x l1 IH]; cbn; [reflexivity|].
  destruct (f x); cbn; [discriminate|exact IH].
Qed.

Lemma forallb_rev (A : Type) (f : A -> bool) (l : list A) :
  forallb f (rev l) = forallb f l.
Proof.
  induction l as [|x l IH]; [reflexivity|].
  cbn. rewrite forallb_app, IH. cbn. rewrite andb_true_r. apply andb_comm.
Qed.

Lemma find_none_forallb (A : Type) (f : A -> bool) (l : list A) :
  find f l = None <-> forallb (fun x => negb (f x)) l = true.
Proof.
  induction l as [|x l IH]; cbn; [tauto|].
  destruct (f x); cbn; [split; discriminate|exact IH].
Qed.

(** X9. Which message counts as the newest answer. In the list the host
    returns, the handler's pick is the last message with the assistant
    role: messages after it with other roles (a user's follow-up, say) do
    not hide it, and earlier assistant messages are passed over. There is
    no pick exactly when no message has the assistant role, in particular
    for an empty list or a response without data. *)
Theorem newest_assistant_is_last_assistant :
  (forall (before after : list Message) (m : Message),
      is_assistant m = true ->
      forallb (fun x => negb (is_assistant x)) after = true ->
      newest_assistant {| data := Some (before ++ m :: after) |} = Some (id (info m)))
  /\ (forall messages : list Message,
        newest_assistant {| data := Some messages |} = None
        <-> forallb (fun x => negb (is_assistant x)) messages = true)
  /\ newest_assistant {| data := None |} = None.
Proof.
  unfold newest_assistant, is_assistant. cbn [data]. repeat split.
  - intros before after m Hm Hafter.
    rewrite rev_app_distr. cbn [rev]. rewrite <- app_assoc. cbn [app].
    rewrite find_skips by now rewrite forallb_rev.
    cbn [find]. now rewrite Hm.
  - intros H. destruct (find _ _) eqn:Hfind; [discriminate|].
    apply find_none_forallb in Hfind. now rewrite forallb_rev in Hfind.
  - intros H. rewrite <- forallb_rev in H. apply find_none_forallb in H.
    now rewrite H.
Qed.

Lemma newest_assistant_is_last_assistant_witness :
  newest_assistant
    {| data := Some ([ {| info := {| id := js "msg_1"; role := js "assistant" |};
                          parts := [] |} ]
                     ++ {| info := {| id := js "msg_2"; role := js "assistant" |};
                           parts := [] |}
                     :: [ {| info := {| id := js "msg_3"; role := js "user" |};
                             parts := [] |} ]) |}
  = Some (js "msg_2").
Proof.
  exact (proj1 newest_assistant_is_last_assistant
           [ {| info := {| id := js "msg_1"; role := js "assistant" |}; parts := [] |} ]
           [ {| info := {| id := js "msg_3"; role := js "user" |}; parts := [] |} ]
           {| info := {| id := js "msg_2"; role := js "assistant" |}; parts := [] |}
           eq_refl eq_refl).
Defined.

(* ================================================================== *)
(** ** More on text extraction and escaping *)

Lemma text_payloads_app (a b : list Part) :
  text_payloads (a ++ b) = text_payloads a ++ text_payloads b.
Proof.
  induction a as [|p a IH]; [reflexivity|].
  cbn. destruct (text_payload p); cbn; now rewrite IH.
Qed.

Lemma text_payloads_nonempty (ps : list Part) :
  Forall (fun text => JsString.truthy text = true) (text_payloads ps).
Proof.
  induction ps as [|p ps IH]; [constructor|].
  cbn. unfold text_payload.
  destruct (part_text p) as [text|]; [|exact IH].
  destruct (JsString.eqb _ _); cbn [andb]; [|exact IH].
  destruct (JsString.truthy text) eqn:Htext; [|exact IH].
  now constructor.
Qed.

Lemma newline_separated_truthy (texts : list jsstring) :
  Forall (fun text => JsString.truthy text = true) texts ->
  JsString.truthy (newline_separated texts)
  = match texts with [] => false | _ :: _ => true end.
Proof.
  intros Hall. destruct Hall as [|text rest Htext _]; [reflexivity|].
  destruct text as [|c text]; [discriminate|].
  cbn. now destruct rest.
Qed.

Lemma newline_separated_app (a b : list jsstring) :
  newline_separated (a ++ b)
  = match a, b with
    | [], _ => newline_separated b
    | _, [] => newline_separated a
    | _ :: _, _ :: _ => newline_separated a ++ JsString.LF ++ newline_separated b
    end.
Proof.
  induction a as [|x a IH]; [reflexivity|].
  destruct b as [|y b]; [now rewrite app_nil_r|].
  destruct a as [|x' a]; [reflexivity|].
  change (newline_separated ((x :: x' :: a) ++ y :: b))
    with (x ++ JsString.LF ++ newline_separated ((x' :: a) ++ y :: b)).
  rewrite IH.
  change (newline_separated (x :: x' :: a))
    with (x ++ JsString.LF ++ newline_separated (x' :: a)).
  now rewrite <- !app_assoc.
Qed.

Lemma extract_as_payloads (ps : list Part) :
  Capture.extractTextFromParts ps = newline_separated (text_payloads ps).
Proof.
  unfold Capture.extractTextFromParts.
  now rewrite filter_map_text_payloads, join_some.
Qed.

(** X10. Text extraction on the edges and under concatenation. The result
    is the empty string exactly when no part is of type "text" with a
    non-empty text (so for no parts at all). Extracting from two lists of
    parts one after the other gives the two results with one newline
    between them, and just the other result when one of them is empty: a
    part without text never leaves a stray newline. *)
Theorem extractTextFromParts_empty_and_append :
  (forall ps : list Part,
      Capture.extractTextFromParts ps = [] <-> text_payloads ps = [])
  /\ (forall a b : list Part,
        Capture.extractTextFromParts (a ++ b)
        = if JsString.truthy (Capture.extractTextFromParts a)
          then if JsString.truthy (Capture.extractTextFromParts b)
               then Capture.extractTextFromParts a ++ JsString.LF
                    ++ Capture.extractTextFromParts b
               else Capture.extractTextFromParts a
          else Capture.extractTextFromParts b).
Proof.
  split.
  - intros ps. rewrite extract_as_payloads.
    pose proof (newline_separated_truthy (text_payloads_nonempty ps)) as H.
    destruct (text_payloads ps) as [|text rest]; [tauto|].
    split; [|discriminate]. intros E. rewrite E in H. discriminate H.
  - intros a b. rewrite !extract_as_payloads, text_payloads_app.
    rewrite !newline_separated_truthy by apply text_payloads_nonempty.
    rewrite newline_separated_app.
    destruct (text_payloads a), (text_payloads b); reflexivity.
Qed.

(** X11. Escaping loses nothing: two contents whose escaped insertion
    statements are equal are the same content. *)
Theorem insertStatement_injective :
  forall a b : jsstring,
    Capture.insertStatement (JsString.doubleApostrophes a)
    = Capture.insertStatement (JsString.doubleApostrophes b) ->
    a = b.
Proof.
  intros a b H. apply (f_equal Sql.inserted_content) in H.
  rewrite !inserted_content_escaped in H. now injection H.
Qed.

Lemma insertStatement_injective_witness :
  js "O'Brien" = js "O'Brien".
Proof.
  exact (insertStatement_injective (js "O'Brien") (js "O'Brien") eq_refl).
Defined.

(* ================================================================== *)
(** ** When speech is skipped *)

Ltac skipped_only_when_told :=
  repeat split_goal;
  intros Hrun Htrace Hnone; injection Hrun as <- <-;
  cbn [trace lastProcessedMessageId] in Htrace; rewrite <- ?app_assoc in Htrace;
  apply app_inv_head in Htrace; subst; cbn in Hnone; try discriminate Hnone;
  try (exfalso; match goal with H : negb _ = true |- _ => cbn in H; discriminate H end);
  eexists _, _, _; repeat split;
  try eassumption; try reflexivity; try (apply negb_true_iff; eassumption).

(** X12. Speech is skipped only on the lock endpoint's word. In both
    gated revisions, a call of [speak] that made no delivery call at all
    returned [true], and the lock query had been answered with a 2xx
    status and a JSON body whose [canSpeak] property was read and found
    falsy. A timeout, a refused connection, an error status or an
    unreadable body never silences a call. *)
Theorem speech_skipped_only_on_lock_answer :
  (forall (config : Index.TTSConfig) (text : jsstring) (w : World)
          (s s' : State) (r : Exn + bool) (new : list Effect),
      Index.speak config text w s = (r, s') ->
      trace s' = trace s ++ new ->
      filter to_delivery new = [] ->
      exists (response : Response) (body field : JsValue),
        fetch_reply w (trace s) (Index.canSpeakRequest config) = inr response
        /\ ok response = true
        /\ resp_json response = inr body
        /\ Js.get body (js "canSpeak") = inr field
        /\ Js.truthy field = false
        /\ r = inr true)
  /\ (forall (config : Capture.TTSConfig) (text : jsstring) (w : World)
             (s s' : State) (r : Exn + bool) (new : list Effect),
        Capture.speak config text w s = (r, s') ->
        trace s' = trace s ++ new ->
        filter to_delivery new = [] ->
        exists (response : Response) (body field : JsValue),
          fetch_reply w (trace s) (Capture.canSpeakRequest config) = inr response
          /\ ok response = true
          /\ resp_json response = inr body
          /\ Js.get body (js "canSpeak") = inr field
          /\ Js.truthy field = false
          /\ r = inr true).
Proof.
  split; intros config text w s s' r new.
  - unfold Index.speak, Index.canSpeak. run. skipped_only_when_told.
  - unfold Capture.speak, Capture.canSpeak. run. skipped_only_when_told.
Qed.

Lemma speech_skipped_only_on_lock_answer_witness :
  let w := fixed_world locked accepted (inr tt) (inr tt) in
  exists (response : Response) (body field : JsValue),
    fetch_reply w (trace initial) (Index.canSpeakRequest Index.defaultConfig) = inr response
    /\ ok response = true
    /\ resp_json response = inr body
    /\ Js.get body (js "canSpeak") = inr field
    /\ Js.truthy field = false
    /\ (inr true : Exn + bool) = inr true.
Proof.
  intros w.
  apply (proj1 speech_skipped_only_on_lock_answer Index.defaultConfig (js "Hotovo.") w
           initial (snd (Index.speak Index.defaultConfig (js "Hotovo.") w initial))
           (inr true)
           (trace (snd (Index.speak Index.defaultConfig (js "Hotovo.") w initial))));
    vm_compute; reflexivity.
Defined.

(* ================================================================== *)
(** ** Any number of events *)

Lemma Capture_event_counts (config : Capture.TTSConfig) (input : Capture.PluginInput)
    (ev : Capture.Event) (w : World) (s : State) :
  exists (s' : State) (new : list Effect),
    Capture.event config input ev w s = (inr tt, s')
    /\ trace s' = trace s ++ new
    /\ (List.length (filter to_store new) <= List.length (filter is_assignment new))%nat
    /\ (List.length (filter is_assignment new) <= List.length (observed new))%nat
    /\ (List.length (observed new) <= 1)%nat
    /\ (lastProcessedMessageId s' = lastProcessedMessageId s
        \/ exists i, lastProcessedMessageId s' = Some i /\ In (Some i) (observed new)).
Proof.
  destruct (Capture_event_run config input ev w s)
    as (pre & post & s' & Hrun & Htrace & Hquiet & Hout).
  exists s', (pre ++ post). split; [exact Hrun|]. split; [exact Htrace|].
  apply speak_effects_quiet in Hquiet; [|reflexivity].
  destruct Hquiet as (Hstore & Hassign & Hobs).
  rewrite observed_app, !filter_app, Hobs, Hstore, Hassign. cbn [app].
  destruct Hout; cbn; rewrite ?H, ?H1; cbn; repeat split; auto; right; eauto.
Qed.

Lemma events_counts (config : Capture.TTSConfig) (input : Capture.PluginInput)
    (w : World) (evs : list Capture.Event) :
  forall s : State,
    exists (s' : State) (tail : list Effect),
      events config input evs w s = (inr tt, s')
      /\ trace s' = trace s ++ tail
      /\ (List.length (filter to_store tail) <= List.length (filter is_assignment tail))%nat
      /\ (List.length (filter is_assignment tail) <= List.length (observed tail))%nat
      /\ (List.length (observed tail) <= List.length evs)%nat
      /\ (lastProcessedMessageId s' = lastProcessedMessageId s
          \/ exists i, lastProcessedMessageId s' = Some i /\ In (Some i) (observed tail)).
Proof.
  induction evs as [|ev rest IH]; intros s.
  - exists s, []. cbn. rewrite app_nil_r. repeat split; auto.
  - destruct (Capture_event_counts config input ev w s)
      as (s1 & new & Hrun & Htrace & Hsa & Hao & Ho1 & Hm1).
    destruct (IH s1) as (s2 & tail & Hrest & Htrace2 & Hsa2 & Hao2 & Ho2 & Hm2).
    exists s2, (new ++ tail). cbn [events]. rewrite bind_run, Hrun, Hrest.
    split; [reflexivity|]. split; [rewrite Htrace2, Htrace; now rewrite <- app_assoc|].
    rewrite observed_app, !filter_app, !length_app. cbn [List.length].
    repeat split; try lia.
    destruct Hm2 as [Hm2 | (i & Hm2 & Hin)].
    + rewrite Hm2. destruct Hm1 as [Hm1 | (i & Hm1 & Hin)]; [now left|].
      right. exists i. split; [exact Hm1|]. apply in_or_app. now left.
    + right. exists i. split; [exact Hm2|]. apply in_or_app. now right.
Qed.

(** X13. Every write has its cause. Over any sequence of events, from any
    state and in any world, the store is written at most as often as the
    marker is assigned, the marker is assigned at most as often as session
    data was fetched successfully, and session data is fetched at most
    once per event. *)
Theorem writes_follow_assignments_follow_fetches :
  forall (config : Capture.TTSConfig) (input : Capture.PluginInput) (w : World)
         (evs : list Capture.Event) (s : State),
    exists (s' : State) (tail : list Effect),
      events config input evs w s = (inr tt, s')
      /\ trace s' = trace s ++ tail
      /\ (List.length (filter to_store tail) <= List.length (filter is_assignment tail))%nat
      /\ (List.length (filter is_assignment tail) <= List.length (observed tail))%nat
      /\ (List.length (observed tail) <= List.length evs)%nat.
Proof.
  intros config input w evs s.
  destruct (events_counts config input w evs s)
    as (s' & tail & Hrun & Htrace & H1 & H2 & H3 & _).
  exists s', tail. auto.
Qed.

(** X14. The marker is never cleared and never invented. After any
    sequence of events the marker is what it was before, or it is the
    identifier of a newest assistant message that one of the events'
    session data showed; once set it is never unset. *)
Theorem marker_never_cleared :
  forall (config : Capture.TTSConfig) (input : Capture.PluginInput) (w : World)
         (evs : list Capture.Event) (s : State),
    exists (s' : State) (tail : list Effect),
      events config input evs w s = (inr tt, s')
      /\ trace s' = trace s ++ tail
      /\ (lastProcessedMessageId s' = lastProcessedMessageId s
          \/ exists i, lastProcessedMessageId s' = Some i /\ In (Some i) (observed tail))
      /\ (lastProcessedMessageId s <> None -> lastProcessedMessageId s' <> None).
Proof.
  intros config input w evs s.
  destruct (events_counts config input w evs s)
    as (s' & tail & Hrun & Htrace & _ & _ & _ & Hm).
  exists s', tail. repeat split; auto.
  intros Hset. destruct Hm as [-> | (i & -> & _)]; [exact Hset|discriminate].
Qed.

Lemma marker_never_cleared_witness :
  let s := {| trace := []; lastProcessedMessageId := Some (js "msg_0") |} in
  exists (s' : State) (tail : list Effect),
    events capturing two_session_host [idle (js "ses_1"); idle (js "ses_2")] store_down s
    = (inr tt, s')
    /\ trace s' = trace s ++ tail
    /\ lastProcessedMessageId s' <> None.
Proof.
  intros s.
  destruct (marker_never_cleared capturing two_session_host store_down
              [idle (js "ses_1"); idle (js "ses_2")] s)
    as (s' & tail & Hrun & Htrace & _ & Hkeep).
  exists s', tail. repeat split; [exact Hrun | exact Htrace |].
  apply Hkeep. discriminate.
Defined.

(** X15. A steady session is stored at most once, however often it goes
    idle. If, over a sequence of events, every successful fetch of session
    data shows the same newest assistant message (or none), then all the
    events together write to the store at most once, from whatever state
    they start and whatever fails along the way. *)
Theorem steady_session_stored_at_most_once :
  forall (config : Capture.TTSConfig) (input : Capture.PluginInput) (w : World)
         (evs : list Capture.Event) (s s' : State) (r : Exn + unit)
         (tail : list Effect) (i : jsstring),
    events config input evs w s = (r, s') ->
    trace s' = trace s ++ tail ->
    (forall j, In (Some j) (observed tail) -> j = i) ->
    (List.length (filter to_store tail) <= 1)%nat.
Proof.
  intros config input w evs.
  induction evs as [|ev rest IH]; intros s s' r tail i Hrun Htrace Hsame.
  - cbn in Hrun. injection Hrun as _ <-.
    rewrite <- (app_nil_r (trace s)) in Htrace at 1.
    apply app_inv_head in Htrace. subst tail. cbn. lia.
  - cbn [events] in Hrun. rewrite bind_run in Hrun.
    destruct (Capture.event config input ev w s) as [r1 s1] eqn:Hev.
    destruct (Capture_event_run config input ev w s)
      as (pre & post & s1' & Hev' & Htrace1 & _).
    rewrite Hev in Hev'. injection Hev' as -> <-.
    rewrite app_assoc in Htrace1. rewrite <- app_assoc in Htrace1.
    destruct (@Capture_event_summary _ _ _ _ _ _ _ _ Hev Htrace1) as (_ & Hsum).
    destruct (events_run config input w rest s1) as (s2 & tail2 & Hrest & Htrace2 & Hkeep).
    rewrite Hrun in Hrest. injection Hrest as -> <-.
    assert (Htail : tail = (pre ++ post) ++ tail2).
    { rewrite Htrace2, Htrace1, <- !app_assoc in Htrace.
      apply app_inv_head in Htrace. now rewrite <- !app_assoc. }
    subst tail. rewrite observed_app in Hsame.
    rewrite filter_app, length_app.
    assert (Hlater : forall j, In (Some j) (observed tail2) -> j = i)
      by (intros j Hj; apply Hsame, in_or_app; now right).
    destruct (observed (pre ++ post)) as [|[j|] [|]] eqn:Hobs.
    2: { assert (j = i) by (apply Hsame; left; reflexivity). subst j.
         assert (Hm : lastProcessedMessageId s1 = Some i)
           by (destruct Hsum as [(Hm & -> & _) | (_ & Hm & _)]; assumption).
         destruct (Hkeep i Hm Hlater) as (-> & _).
         destruct Hsum as [(_ & _ & _ & ->) | (_ & _ & _ & Hle)]; cbn; lia. }
    all: destruct Hsum as (_ & _ & ->); cbn [List.length plus];
      exact (IH s1 s' (inr tt) tail2 i Hrun Htrace2 Hlater).
Qed.

Lemma steady_session_stored_at_most_once_witness :
  let ev := idle (js "ses_1") in
  let s' := snd (events capturing steady_host [ev; ev; ev] store_down initial) in
  (List.length (filter to_store (trace s')) <= 1)%nat.
Proof.
  intros ev s'.
  apply (@steady_session_stored_at_most_once capturing steady_host store_down
           [ev; ev; ev] initial s' (inr tt) (trace s') (js "msg_a")
           eq_refl eq_refl).
  intros j Hj. vm_compute in Hj.
  destruct Hj as [Hj | [Hj | [Hj | []]]]; injection Hj as <-; reflexivity.
Defined.

(* ================================================================== *)
(** ** The two gated revisions side by side *)

Lemma quiet_printed (h : list Effect) (level : Level) (what : Diagnostic) :
  quiet (h ++ [Printed level what]) = quiet h.
Proof. unfold quiet. rewrite filter_app. cbn. apply app_nil_r. Qed.

Lemma quiet_fetched (h : list Effect) (req : Request) (out : Exn + Response) :
  quiet (h ++ [Fetched req out]) = quiet h ++ [Fetched req out].
Proof. unfold quiet. now rewrite filter_app. Qed.

Lemma quiet_ran (h : list Effect) (cmd : Command) (out : Exn + unit) :
  quiet (h ++ [Ran cmd out]) = quiet h ++ [Ran cmd out].
Proof. unfold quiet. now rewrite filter_app. Qed.

(** Bring a call on the silent side to the history of the same call on the
    printing side, whose answer is already known. *)
Ltac sync Hblind Hq :=
  match goal with
  | H : fetch_reply ?w ?hi ?q = ?v |- context [fetch_reply ?w ?hc ?q] =>
    tryif constr_eq hi hc then fail else
      replace (fetch_reply w hc q) with v
        by (rewrite <- H; apply Hblind;
            repeat first [rewrite quiet_printed | rewrite quiet_fetched | rewrite quiet_ran];
            now rewrite Hq)
  | H : shell_reply ?w ?hi ?c = ?v |- context [shell_reply ?w ?hc ?c] =>
    tryif constr_eq hi hc then fail else
      replace (shell_reply w hc c) with v
        by (rewrite <- H; apply Hblind;
            repeat first [rewrite quiet_printed | rewrite quiet_fetched | rewrite quiet_ran];
            now rewrite Hq)
  end;
  cbn beta iota zeta delta [fst snd trace lastProcessedMessageId] in *.

(** X16. The diagnostics are the only difference. In a world that does
    not read the console, [speak] of [src/index.ts] and [speak] of the
    capturing revision, configured with the same endpoints and fallback
    executable and started from histories that agree up to console
    output, return the same boolean, and the capturing revision's effects
    are exactly those of [src/index.ts] with the console output left
    out. *)
Theorem diagnostics_do_not_change_delivery :
  forall (ci : Index.TTSConfig) (cc : Capture.TTSConfig) (text : jsstring)
         (w : World) (si sc : State),
    console_blind w ->
    same_channels ci cc ->
    quiet (trace si) = quiet (trace sc) ->
    exists (b : bool) (si' sc' : State) (newi newc : list Effect),
      Index.speak ci text w si = (inr b, si')
      /\ Capture.speak cc text w sc = (inr b, sc')
      /\ trace si' = trace si ++ newi
      /\ trace sc' = trace sc ++ newc
      /\ newc = quiet newi.
Proof.
  intros ci cc text w si sc Hblind (Hapi & Hlock & Hfb) Hq.
  unfold Index.speak, Index.canSpeak, Capture.speak, Capture.canSpeak,
    Index.canSpeakRequest, Index.speakRequest, Index.fallbackCommand,
    Capture.canSpeakRequest, Capture.speakRequest, Capture.fallbackCommand.
  rewrite Hapi, Hlock, Hfb. run.
  repeat first [sync Hblind Hq | split_goal].
  all: eexists _, _, _, _, _; (split; [reflexivity|]); (split; [reflexivity|]);
    cbn [trace lastProcessedMessageId]; rewrite <- ?app_assoc;
    (split; [reflexivity|]); (split; [reflexivity|]); reflexivity.
Qed.

Lemma fixed_world_console_blind (lock primary : Exn + Response) (fallback store : Exn + unit) :
  console_blind (fixed_world lock primary fallback store).
Proof. intros h h' _. split; reflexivity. Qed.

Lemma diagnostics_do_not_change_delivery_witness :
  let w := fixed_world unlocked server_error (inl (ShellError 1)) (inr tt) in
  exists (b : bool) (si' sc' : State) (newi newc : list Effect),
    Index.speak Index.defaultConfig (js "Hotovo.") w initial = (inr b, si')
    /\ Capture.speak Capture.defaultConfig (js "Hotovo.") w initial = (inr b, sc')
    /\ trace si' = trace initial ++ newi
    /\ trace sc' = trace initial ++ newc
    /\ newc = quiet newi.
Proof.
  intros w.
  apply diagnostics_do_not_change_delivery.
  - apply fixed_world_console_blind.
  - split; [|split]; vm_compute; reflexivity.
  - reflexivity.
Defined.
